(** * Separate-database tenant strategy: connection pool, tenant cache, provisioning

    A shallow embedding of [SeparateDatabaseStrategy]
    (multitenancy strategy "separate_database") and the properties of its
    bounded pool of Prisma clients, its tenant-context cache with
    [setTimeout] expiry, and its create / drop / backup / restore
    operations.

    The class is stateful and talks to a master database; every method is
    embedded as a function in a state-and-exception monad [M] over a record
    [State] that holds the fields of the object together with the part of the
    outside world the methods can observe (the tenant table, the existing
    databases, which clients hold a connection, pending timers) and a trace
    of the effects performed, in program order.

    The configuration manager of the same file, [ConfigManager], is covered
    in part: its providers, watchers, feature flags and [validate]. *)

From Stdlib Require Import ZArith Ascii String List Lia Sorted.
From stdpp Require Import gmap strings list fin_maps.

Local Open Scope string_scope.
Local Open Scope list_scope.
Local Open Scope Z_scope.

(** ** Strings *)

(** The text that [s.replace(pat, rep)] puts in for a match of a string
    pattern ([GetSubstitution], with no capture groups): in [rep], [$$]
    stands for one dollar sign, [$&] for the match, [$`] for what comes
    before the match and [$'] for what comes after it; any other dollar
    sign stands for itself. *)
Fixpoint GetSubstitution (matched before following rep : string) : string :=
  match rep with
  | EmptyString => EmptyString
  | String c rest =>
      if Ascii.eqb c "$"%char then
        match rest with
        | EmptyString => String c EmptyString
        | String d rest' =>
            if Ascii.eqb d "$"%char
            then String "$"%char (GetSubstitution matched before following rest')
            else if Ascii.eqb d "&"%char
            then matched +:+ GetSubstitution matched before following rest'
            else if Ascii.eqb d "`"%char
            then before +:+ GetSubstitution matched before following rest'
            else if Ascii.eqb d "'"%char
            then following +:+ GetSubstitution matched before following rest'
            else String c (GetSubstitution matched before following rest)
        end
      else String c (GetSubstitution matched before following rest)
  end.

(** [s.replace(pat, rep)] with a string pattern: the first occurrence of
    [pat] is replaced; [before] is the part of the string already passed. *)
Fixpoint replace_from (pat rep before s : string) : string :=
  if String.prefix pat s
  then let following := String.substring (String.length pat)
                          (String.length s - String.length pat)%nat s in
       GetSubstitution pat before following rep +:+ following
  else match s with
       | EmptyString => EmptyString
       | String c s' => String c (replace_from pat rep (before +:+ String c EmptyString) s')
       end.

Definition replace (pat rep s : string) : string :=
  replace_from pat rep EmptyString s.

(** Does the string contain a slash? *)
Fixpoint has_slash (s : string) : bool :=
  match s with
  | EmptyString => false
  | String c s' => if Ascii.eqb c "/"%char then true else has_slash s'
  end.

(** [s.replace(/\/[^/]+$/, rep)], for a [rep] without a dollar sign: the
    last slash and the non-empty, slash-free rest of the string are
    replaced; a string without such a final segment is returned as it is. *)
Fixpoint replace_last_segment (rep s : string) : string :=
  match s with
  | EmptyString => EmptyString
  | String c s' =>
      if Ascii.eqb c "/"%char && negb (String.eqb s' EmptyString) && negb (has_slash s')
      then rep
      else String c (replace_last_segment rep s')
  end.

(** Truthiness of a JavaScript string. *)
Definition truthy (s : string) : bool := negb (String.eqb s EmptyString).

(** ** JavaScript [Map], in insertion order

    [prismaClients] is a [Map] whose iteration order the code relies on
    ([keys().next()] in [evictOldestClient]), so it is an association list
    in insertion order: [set] on a present key keeps the key's position,
    [set] on a new key appends. *)
Module JsMap.
Section JsMap.
Context {V : Type}.

Fixpoint get (k : string) (m : list (string * V)) : option V :=
  match m with
  | [] => None
  | (k', v) :: m' => if String.eqb k' k then Some v else get k m'
  end.

Definition has (k : string) (m : list (string * V)) : bool :=
  match get k m with Some _ => true | None => false end.

Fixpoint set (k : string) (v : V) (m : list (string * V)) : list (string * V) :=
  match m with
  | [] => [(k, v)]
  | (k', v') :: m' =>
      if String.eqb k' k then (k, v) :: m' else (k', v') :: set k v m'
  end.

Fixpoint delete (k : string) (m : list (string * V)) : list (string * V) :=
  match m with
  | [] => []
  | (k', v') :: m' =>
      if String.eqb k' k then m' else (k', v') :: delete k m'
  end.

Definition keys (m : list (string * V)) : list string := m.*1.
Definition values (m : list (string * V)) : list V := m.*2.
Definition size (m : list (string * V)) : Z := Z.of_nat (length m).

(** [m.keys().next().value] *)
Definition first_key (m : list (string * V)) : option string :=
  match m with [] => None | (k, _) :: _ => Some k end.

End JsMap.
End JsMap.

(** ** Data *)

(** A row of the master database's tenant table; [config] is a JSON column
    that may be null. Its values are kept as strings: the only key the code
    reads, [databaseUrl], is used as one. *)
Record TenantRecord := {
  tenant_id : string;
  tenant_name : string;
  tenant_isActive : bool;
  tenant_config : option (gmap string string);
}.

Record TenantContext := {
  ctx_id : string;
  ctx_name : string;
  ctx_config : gmap string string;
  ctx_database : string;
}.

(** A [PrismaClient] object: its identity and the datasource url it was
    built with. Whether it holds an open connection is part of the state. *)
Record PrismaClient := {
  ref : nat;
  datasource : string;
}.

Global Instance PrismaClient_eq_dec : EqDecision PrismaClient.
Proof. solve_decision. Defined.

(** JavaScript [Error], by its message. *)
Inductive error := Error (message : string).

Global Instance error_eq_dec : EqDecision error.
Proof. solve_decision. Defined.

(** The three statements sent through [$executeRawUnsafe]. *)
Inductive sql :=
| CreateDatabase (databaseName : string)
| TerminateBackends (databaseName : string)
| DropDatabaseIfExists (databaseName : string).

(** Effects, as they are issued. *)
Inductive event :=
| FindUnique (tenantId : string)
| TenantUpdate (tenantId : string) (config : gmap string string)
| ExecuteRaw (q : sql)
| MasterDisconnect
| Connect (c : PrismaClient)
| Disconnect (c : PrismaClient)
| ClientsSet (tenantId : string) (c : PrismaClient)
| ClientsDelete (tenantId : string)
| ClientsClear
| CacheSet (tenantId : string)
| CacheDelete (tenantId : string)
| CacheClear
| SetTimeout (due : Z) (tenantId : string).

Global Instance sql_eq_dec : EqDecision sql.
Proof. solve_decision. Defined.
Global Instance event_eq_dec : EqDecision event.
Proof. solve_decision. Defined.

(** ** State *)

Record State := {
  (* fields of the strategy object *)
  masterDatabaseUrl : string;
  databaseUrlTemplate : string;
  maxConnections : Z;
  cacheTtl : Z;
  tenantCache : gmap string TenantContext;
  prismaClients : list (string * PrismaClient);
  (* the master database *)
  tenants : gmap string TenantRecord;
  databases : gset string;
  (* refs of the tenant clients that hold an open connection *)
  connected : gset nat;
  masterConnected : bool;
  (* ref of the next client object *)
  nextRef : nat;
  (* for each coming query or [$connect], whether it fails; calls beyond
     the list go through *)
  faults : list bool;
  (* the same for each coming [$disconnect] *)
  closeFaults : list bool;
  (* clock and pending [setTimeout] callbacks: due time and the tenant id
     whose cache entry the callback deletes *)
  now : Z;
  timers : list (Z * string);
  (* effects so far, oldest first *)
  trace : list event;
}.

Definition set_tenantCache (v : gmap string TenantContext) (s : State) : State :=
  Build_State (masterDatabaseUrl s) (databaseUrlTemplate s) (maxConnections s) (cacheTtl s)
    v (prismaClients s) (tenants s) (databases s) (connected s)
    (masterConnected s) (nextRef s) (faults s) (closeFaults s) (now s) (timers s) (trace s).
Definition set_prismaClients (v : list (string * PrismaClient)) (s : State) : State :=
  Build_State (masterDatabaseUrl s) (databaseUrlTemplate s) (maxConnections s) (cacheTtl s)
    (tenantCache s) v (tenants s) (databases s) (connected s)
    (masterConnected s) (nextRef s) (faults s) (closeFaults s) (now s) (timers s) (trace s).
Definition set_tenants (v : gmap string TenantRecord) (s : State) : State :=
  Build_State (masterDatabaseUrl s) (databaseUrlTemplate s) (maxConnections s) (cacheTtl s)
    (tenantCache s) (prismaClients s) v (databases s) (connected s)
    (masterConnected s) (nextRef s) (faults s) (closeFaults s) (now s) (timers s) (trace s).
Definition set_databases (v : gset string) (s : State) : State :=
  Build_State (masterDatabaseUrl s) (databaseUrlTemplate s) (maxConnections s) (cacheTtl s)
    (tenantCache s) (prismaClients s) (tenants s) v (connected s)
    (masterConnected s) (nextRef s) (faults s) (closeFaults s) (now s) (timers s) (trace s).
Definition set_connected (v : gset nat) (s : State) : State :=
  Build_State (masterDatabaseUrl s) (databaseUrlTemplate s) (maxConnections s) (cacheTtl s)
    (tenantCache s) (prismaClients s) (tenants s) (databases s) v
    (masterConnected s) (nextRef s) (faults s) (closeFaults s) (now s) (timers s) (trace s).
Definition set_masterConnected (v : bool) (s : State) : State :=
  Build_State (masterDatabaseUrl s) (databaseUrlTemplate s) (maxConnections s) (cacheTtl s)
    (tenantCache s) (prismaClients s) (tenants s) (databases s) (connected s)
    v (nextRef s) (faults s) (closeFaults s) (now s) (timers s) (trace s).
Definition set_nextRef (v : nat) (s : State) : State :=
  Build_State (masterDatabaseUrl s) (databaseUrlTemplate s) (maxConnections s) (cacheTtl s)
    (tenantCache s) (prismaClients s) (tenants s) (databases s) (connected s)
    (masterConnected s) v (faults s) (closeFaults s) (now s) (timers s) (trace s).
Definition set_faults (v : list bool) (s : State) : State :=
  Build_State (masterDatabaseUrl s) (databaseUrlTemplate s) (maxConnections s) (cacheTtl s)
    (tenantCache s) (prismaClients s) (tenants s) (databases s) (connected s)
    (masterConnected s) (nextRef s) v (closeFaults s) (now s) (timers s) (trace s).
Definition set_closeFaults (v : list bool) (s : State) : State :=
  Build_State (masterDatabaseUrl s) (databaseUrlTemplate s) (maxConnections s) (cacheTtl s)
    (tenantCache s) (prismaClients s) (tenants s) (databases s) (connected s)
    (masterConnected s) (nextRef s) (faults s) v (now s) (timers s) (trace s).
Definition set_now (v : Z) (s : State) : State :=
  Build_State (masterDatabaseUrl s) (databaseUrlTemplate s) (maxConnections s) (cacheTtl s)
    (tenantCache s) (prismaClients s) (tenants s) (databases s) (connected s)
    (masterConnected s) (nextRef s) (faults s) (closeFaults s) v (timers s) (trace s).
Definition set_timers (v : list (Z * string)) (s : State) : State :=
  Build_State (masterDatabaseUrl s) (databaseUrlTemplate s) (maxConnections s) (cacheTtl s)
    (tenantCache s) (prismaClients s) (tenants s) (databases s) (connected s)
    (masterConnected s) (nextRef s) (faults s) (closeFaults s) (now s) v (trace s).
Definition set_trace (v : list event) (s : State) : State :=
  Build_State (masterDatabaseUrl s) (databaseUrlTemplate s) (maxConnections s) (cacheTtl s)
    (tenantCache s) (prismaClients s) (tenants s) (databases s) (connected s)
    (masterConnected s) (nextRef s) (faults s) (closeFaults s) (now s) (timers s) v.

(** ** The monad: state, and the two ways a call ends *)

Inductive outcome (A : Type) :=
| Returns (a : A)
| Throws (e : error).
Arguments Returns {A} a.
Arguments Throws {A} e.

Definition M (A : Type) : Type := State → outcome A * State.

Global Instance M_ret : MRet M := λ A a s, (Returns a, s).
Global Instance M_bind : MBind M := λ A B f m s,
  match m s with
  | (Returns a, s') => f a s'
  | (Throws e, s') => (Throws e, s')
  end.

Definition throw {A} (e : error) : M A := λ s, (Throws e, s).

(** [try { m } catch (error) { h error }] *)
Definition try_catch {A} (m : M A) (h : error → M A) : M A := λ s,
  match m s with
  | (Returns a, s') => (Returns a, s')
  | (Throws e, s') => h e s'
  end.

Definition gets {A} (f : State → A) : M A := λ s, (Returns (f s), s).
Definition modify (f : State → State) : M unit := λ s, (Returns tt, f s).
Definition emit (e : event) : M unit := modify (λ s, set_trace (trace s ++ [e]) s).

(** ** The backend and the runtime *)

(** Every call to the outside can fail. A query on the master client or on
    a tenant client, and a [$connect], consume one entry of [faults]; a
    [$disconnect] consumes one entry of [closeFaults]. *)
Definition backend_call : M unit := λ s,
  match faults s with
  | [] => (Returns tt, s)
  | false :: fs => (Returns tt, set_faults fs s)
  | true :: fs => (Throws (Error "backend call failed"), set_faults fs s)
  end.

(** [$disconnect()] being rejected: the connection is left as it was. *)
Definition close_call : M unit := λ s,
  match closeFaults s with
  | [] => (Returns tt, s)
  | false :: fs => (Returns tt, set_closeFaults fs s)
  | true :: fs => (Throws (Error "disconnect failed"), set_closeFaults fs s)
  end.

(** A query on [masterClient]; Prisma connects on the first one. *)
Definition master_query : M unit :=
  backend_call;; modify (set_masterConnected true).

(** [masterClient.tenant.findUnique({ where: { id: tenantId }, ... })] *)
Definition findUnique (tenantId : string) : M (option TenantRecord) :=
  emit (FindUnique tenantId);;
  master_query;;
  gets (λ s, tenants s !! tenantId).

(** [masterClient.tenant.update({ where: { id: tenantId }, data: { config } })]:
    the JSON column is replaced; a missing row is an error. *)
Definition tenant_update (tenantId : string) (config : gmap string string) : M unit :=
  emit (TenantUpdate tenantId config);;
  master_query;;
  row ← gets (λ s, tenants s !! tenantId);
  match row with
  | None => throw (Error "Record to update not found")
  | Some r =>
      modify (λ s, set_tenants
        (<[tenantId := {| tenant_id := tenant_id r; tenant_name := tenant_name r;
                          tenant_isActive := tenant_isActive r;
                          tenant_config := Some config |}]> (tenants s)) s)
  end.

(** [masterClient.$executeRawUnsafe(q)]. [CREATE DATABASE] fails on an
    existing database; [DROP DATABASE IF EXISTS] does not mind a missing
    one. Failures for other causes (sessions still open, no permission, the
    network) come from [faults]. *)
Definition executeRawUnsafe (q : sql) : M unit :=
  emit (ExecuteRaw q);;
  master_query;;
  match q with
  | CreateDatabase db =>
      dbs ← gets databases;
      if decide (db ∈ dbs)
      then throw (Error ("database already exists: " +:+ db))
      else modify (set_databases ({[db]} ∪ dbs))
  | TerminateBackends db => mret tt
  | DropDatabaseIfExists db =>
      modify (λ s, set_databases (databases s ∖ {[db]}) s)
  end.

(** [masterClient.$disconnect()] *)
Definition master_disconnect : M unit :=
  emit MasterDisconnect;;
  close_call;;
  modify (set_masterConnected false).

(** [new PrismaClient({ datasources: { db: { url } } })] *)
Definition new_PrismaClient (url : string) : M PrismaClient := λ s,
  (Returns {| ref := nextRef s; datasource := url |}, set_nextRef (S (nextRef s)) s).

(** [client.$connect()] *)
Definition connect (c : PrismaClient) : M unit :=
  emit (Connect c);;
  backend_call;;
  modify (λ s, set_connected ({[ref c]} ∪ connected s) s).

(** [client.$disconnect()]: it closes the connection if there is one, or
    is rejected. *)
Definition disconnect (c : PrismaClient) : M unit :=
  emit (Disconnect c);;
  close_call;;
  modify (λ s, set_connected (connected s ∖ {[ref c]}) s).

(** [await Promise.all(promises)] for promises that were all created
    before: each of them runs, whatever becomes of the others, and the
    [await] throws what the first one to be rejected was rejected with.
    The state is the one reached when they have all settled. *)
Fixpoint Promise_all (promises : list (M unit)) : M unit :=
  match promises with
  | [] => mret tt
  | p :: promises' => λ s,
      match p s with
      | (Returns _, s1) => Promise_all promises' s1
      | (Throws e, s1) => (Throws e, snd (Promise_all promises' s1))
      end
  end.

(** The client's connection is closed. *)
Definition closed (c : PrismaClient) (s : State) : Prop := ref c ∉ connected s.

(** Mutations of the two maps of the object. *)
Definition prismaClients_set (tenantId : string) (c : PrismaClient) : M unit :=
  emit (ClientsSet tenantId c);;
  modify (λ s, set_prismaClients (JsMap.set tenantId c (prismaClients s)) s).

Definition prismaClients_delete (tenantId : string) : M unit :=
  emit (ClientsDelete tenantId);;
  modify (λ s, set_prismaClients (JsMap.delete tenantId (prismaClients s)) s).

Definition prismaClients_clear : M unit :=
  emit ClientsClear;; modify (set_prismaClients []).

Definition tenantCache_set (tenantId : string) (context : TenantContext) : M unit :=
  emit (CacheSet tenantId);;
  modify (λ s, set_tenantCache (<[tenantId := context]> (tenantCache s)) s).

Definition tenantCache_delete (tenantId : string) : M unit :=
  emit (CacheDelete tenantId);;
  modify (λ s, set_tenantCache (delete tenantId (tenantCache s)) s).

Definition tenantCache_clear : M unit :=
  emit CacheClear;; modify (set_tenantCache ∅).

(** The delay [setTimeout] works with: Node sets a delay below 1 or above
    2^31 - 1 to 1. *)
Definition timeout_delay (ms : Z) : Z :=
  if (ms <? 1) || (ms >? 2147483647) then 1 else ms.

(** [setTimeout(() => { this.tenantCache.delete(tenantId) }, this.cacheTtl)]:
    one more pending callback; the handle [setTimeout] returns is dropped. *)
Definition setTimeout_delete (tenantId : string) : M unit :=
  due ← gets (λ s, now s + timeout_delay (cacheTtl s));
  emit (SetTimeout due tenantId);;
  modify (λ s, set_timers (timers s ++ [(due, tenantId)]) s).

(** The event loop: the clock reaches [t] and the callbacks due by then
    run. *)
Definition fire (s : State) (timer : Z * string) : State :=
  snd (tenantCache_delete timer.2 s).

Definition advance (t : Z) (s : State) : State :=
  foldl fire
    (set_now t (set_timers (filter (λ timer : Z * string, ¬ (timer.1 ≤ t)%Z) (timers s)) s))
    (filter (λ timer : Z * string, (timer.1 ≤ t)%Z) (timers s)).

(** ** The strategy *)

Record SeparateDatabaseConfig := {
  cfg_masterDatabaseUrl : string;
  cfg_databaseUrlTemplate : option string;
  cfg_maxConnections : option Z;
  cfg_cacheTtl : option Z;
}.

(** [v || d] on an optional string and on an optional number. *)
Definition string_or (v : option string) (d : string) : string :=
  match v with Some x => if truthy x then x else d | None => d end.

Definition number_or (v : option Z) (d : Z) : Z :=
  match v with Some x => if x =? 0 then d else x | None => d end.

(** [new SeparateDatabaseStrategy(config)], against a master database with
    the given tenant table and databases, and with the scripts of the
    failures to come: [fs] for queries and [$connect], [cfs] for
    [$disconnect]. *)
Definition constructor (config : SeparateDatabaseConfig)
    (rows : gmap string TenantRecord) (dbs : gset string) (fs cfs : list bool) : State :=
  {| masterDatabaseUrl := cfg_masterDatabaseUrl config;
     databaseUrlTemplate :=
       string_or (cfg_databaseUrlTemplate config)
         (replace_last_segment "/tenant_{tenantId}" (cfg_masterDatabaseUrl config));
     maxConnections := number_or (cfg_maxConnections config) 10;
     cacheTtl := number_or (cfg_cacheTtl config) (5 * 60 * 1000);
     tenantCache := ∅;
     prismaClients := [];
     tenants := rows;
     databases := dbs;
     connected := ∅;
     masterConnected := false;
     nextRef := 0;
     faults := fs;
     closeFaults := cfs;
     now := 0;
     timers := [];
     trace := [] |}.

Definition getDatabaseUrlForTenant (tenantId : string) : M string :=
  template ← gets databaseUrlTemplate;
  mret (replace "{tenantId}" tenantId template).

(** [tenant && tenant.isActive]: [null] ([None]) for a tenant that is not
    there, else its [isActive]; and [false] when the lookup throws. *)
Definition validateTenant (tenantId : string) : M (option bool) :=
  try_catch
    (tenant ← findUnique tenantId;
     mret (match tenant with
           | Some t => Some (tenant_isActive t)
           | None => None
           end))
    (λ _, mret (Some false)).

(** [!isValid] on what [validateTenant] answers *)
Definition not_valid (isValid : option bool) : bool :=
  match isValid with
  | Some b => negb b
  | None => true
  end.

(** [// Cache the context] and [// Set up cache expiry]: the entry is set
    and its deletion scheduled. *)
Definition cache_put (tenantId : string) (context : TenantContext) : M unit :=
  tenantCache_set tenantId context;;
  setTimeout_delete tenantId.

(** A cached context is returned as it is; there is no expiry time to
    check, expiry is the timer's business. *)
Definition getTenantContext (tenantId : string) : M (option TenantContext) :=
  cached ← gets (λ s, tenantCache s !! tenantId);
  match cached with
  | Some context => mret (Some context)
  | None =>
      try_catch
        (tenant ← findUnique tenantId;
         match tenant with
         | None => mret None
         | Some t =>
             if negb (tenant_isActive t) then mret None
             else
               databaseUrl ←
                 match tenant_config t ≫= (.!! "databaseUrl") with
                 | Some url =>
                     if truthy url then mret url
                     else getDatabaseUrlForTenant tenantId
                 | None => getDatabaseUrlForTenant tenantId
                 end;
               let context :=
                 {| ctx_id := tenant_id t;
                    ctx_name := tenant_name t;
                    ctx_config := default ∅ (tenant_config t);
                    ctx_database := databaseUrl |} in
               cache_put tenantId context;;
               mret (Some context)
         end)
        (λ _, mret None)
  end.

(** The first key in insertion order; [if (firstKey)] skips an empty one. *)
Definition evictOldestClient : M unit :=
  firstKey ← gets (λ s, JsMap.first_key (prismaClients s));
  match firstKey with
  | Some k =>
      if truthy k then
        client ← gets (λ s, JsMap.get k (prismaClients s));
        match client with
        | Some c => disconnect c;; prismaClients_delete k
        | None => mret tt
        end
      else mret tt
  | None => mret tt
  end.

(** [has] and [get] of the map agree, so the early return is a match on
    [get]. The limit is enforced after the new client is in the map. *)
Definition getPrismaClient (tenantId : string) : M PrismaClient :=
  pooled ← gets (λ s, JsMap.get tenantId (prismaClients s));
  match pooled with
  | Some c => mret c
  | None =>
      isValid ← validateTenant tenantId;
      if not_valid isValid then throw (Error ("Invalid tenant: " +:+ tenantId))
      else
        context ← getTenantContext tenantId;
        match context with
        | None => throw (Error ("No database configured for tenant: " +:+ tenantId))
        | Some ctx =>
            if negb (truthy (ctx_database ctx))
            then throw (Error ("No database configured for tenant: " +:+ tenantId))
            else
              client ← new_PrismaClient (ctx_database ctx);
              try_catch (connect client)
                (λ _, throw (Error ("Database connection failed for tenant " +:+ tenantId)));;
              prismaClients_set tenantId client;;
              size ← gets (λ s, JsMap.size (prismaClients s));
              max ← gets maxConnections;
              (if bool_decide (size > max) then evictOldestClient else mret tt);;
              mret client
        end
  end.

(** The whole body is in a [try]; the [catch] logs and returns [false]. *)
Definition createTenantDatabase (tenantId : string) : M bool :=
  try_catch
    (let databaseName := "tenant_" +:+ tenantId in
     executeRawUnsafe (CreateDatabase databaseName);;
     databaseUrl ← getDatabaseUrlForTenant tenantId;
     newClient ← new_PrismaClient databaseUrl;
     disconnect newClient;;
     tenant_update tenantId {[ "databaseUrl" := databaseUrl ]};;
     mret true)
    (λ _, mret false).

Definition dropTenantDatabase (tenantId : string) : M bool :=
  try_catch
    (let databaseName := "tenant_" +:+ tenantId in
     client ← gets (λ s, JsMap.get tenantId (prismaClients s));
     match client with
     | Some c => disconnect c;; prismaClients_delete tenantId
     | None => mret tt
     end;;
     executeRawUnsafe (TerminateBackends databaseName);;
     executeRawUnsafe (DropDatabaseIfExists databaseName);;
     tenantCache_delete tenantId;;
     mret true)
    (λ _, mret false).

(** Placeholders in the source: a [console.log] and [return true]. *)
Definition backupTenantDatabase (tenantId backupPath : string) : M bool :=
  try_catch (mret true) (λ _, mret false).

Definition restoreTenantDatabase (tenantId backupPath : string) : M bool :=
  try_catch (mret true) (λ _, mret false).

Definition getActiveTenants : M (list string) :=
  gets (λ s, JsMap.keys (prismaClients s)).

Definition disconnectTenant (tenantId : string) : M unit :=
  client ← gets (λ s, JsMap.get tenantId (prismaClients s));
  match client with
  | Some c => disconnect c;; prismaClients_delete tenantId
  | None => mret tt
  end.

(** [$disconnect] is called on every pooled client, in the order of the
    map, and the promises are awaited together; when one is rejected the map
    is not cleared and the master client not disconnected. *)
Definition disconnectAll : M unit :=
  clients ← gets (λ s, JsMap.values (prismaClients s));
  Promise_all (disconnect <$> clients);;
  prismaClients_clear;;
  master_disconnect.

(** [clearCache(tenantId?)]: an absent or empty id clears the whole cache. *)
Definition clearCache (tenantId : option string) : M unit :=
  match tenantId with
  | Some t => if truthy t then tenantCache_delete t else tenantCache_clear
  | None => tenantCache_clear
  end.

(** ** [getPrismaClient] at its suspension point

    [getPrismaClient] is an [async] function: at [await client.$connect()]
    it hands control back to the event loop, and other calls run before it
    resumes with [this.prismaClients.set]. The two halves, and inside the
    second one the step that enforces the limit: *)

(** Lines up to and including [await client.$connect()]: [inl] is the early
    return of a pooled client, [inr] a client that was just dialled. *)
Definition getPrismaClient_dial (tenantId : string) : M (PrismaClient + PrismaClient) :=
  pooled ← gets (λ s, JsMap.get tenantId (prismaClients s));
  match pooled with
  | Some c => mret (inl c)
  | None =>
      isValid ← validateTenant tenantId;
      if not_valid isValid then throw (Error ("Invalid tenant: " +:+ tenantId))
      else
        context ← getTenantContext tenantId;
        match context with
        | None => throw (Error ("No database configured for tenant: " +:+ tenantId))
        | Some ctx =>
            if negb (truthy (ctx_database ctx))
            then throw (Error ("No database configured for tenant: " +:+ tenantId))
            else
              client ← new_PrismaClient (ctx_database ctx);
              try_catch (connect client)
                (λ _, throw (Error ("Database connection failed for tenant " +:+ tenantId)));;
              mret (inr client)
        end
  end.

(** [if (this.prismaClients.size > this.maxConnections) await this.evictOldestClient()] *)
Definition enforce_limit : M unit :=
  size ← gets (λ s, JsMap.size (prismaClients s));
  max ← gets maxConnections;
  if bool_decide (size > max) then evictOldestClient else mret tt.

(** The lines after the dial: cache the client, enforce the limit, return. *)
Definition getPrismaClient_admit (tenantId : string) (client : PrismaClient) : M PrismaClient :=
  prismaClients_set tenantId client;;
  enforce_limit;;
  mret client.

Definition getPrismaClient_resume (tenantId : string)
    (r : PrismaClient + PrismaClient) : M PrismaClient :=
  match r with
  | inl c => mret c
  | inr client => getPrismaClient_admit tenantId client
  end.

(** Number of [$connect] calls in a trace. *)
Fixpoint dials (tr : list event) : nat :=
  match tr with
  | [] => 0
  | Connect _ :: tr' => S (dials tr')
  | _ :: tr' => dials tr'
  end.

(** ** A small deployment, for the examples

    Tenants [a], [b], [c], [x] and [e] are active, [d] is not; [e] has a
    config with two keys; at most two pooled clients; cached contexts expire
    after 100 ms. *)
Definition row (id : string) (active : bool) : TenantRecord :=
  {| tenant_id := id; tenant_name := id; tenant_isActive := active;
     tenant_config := None |}.

Definition example_rows : gmap string TenantRecord :=
  <["a" := row "a" true]> (<["b" := row "b" true]> (<["c" := row "c" true]>
  (<["x" := row "x" true]> (<["d" := row "d" false]>
  {["e" := {| tenant_id := "e"; tenant_name := "e"; tenant_isActive := true;
              tenant_config := Some (<["plan" := "gold"]> {["region" := "eu"]}) |}]})))).

Definition example_config : SeparateDatabaseConfig :=
  {| cfg_masterDatabaseUrl := "postgresql://u:p@h:5432/master";
     cfg_databaseUrlTemplate := None;
     cfg_maxConnections := Some 2;
     cfg_cacheTtl := Some 100 |}.

Definition example_state : State := constructor example_config example_rows ∅ [] [].

(** The same deployment with a failing backend: the first call fails. *)
Definition example_state_down : State := constructor example_config example_rows ∅ [true] [].

(** The same deployment where the sixth backend call fails: for calls of
    [getPrismaClient] on fresh tenants that is the dial of the second one. *)
Definition example_state_flaky : State :=
  constructor example_config example_rows ∅ [false; false; false; false; false; true] [].

(** The same deployment where the first [$disconnect] is rejected. *)
Definition example_state_close_rejected : State :=
  constructor example_config example_rows ∅ [] [true].

(** The state of a call after it ran: *)
Definition after {A} (m : M A) (s : State) : State := (m s).2.
Definition result {A} (m : M A) (s : State) : outcome A := (m s).1.

(** The directory's owner switches a tenant off (a write to the tenant
    table that does not go through this class). *)
Definition deactivate (tenantId : string) (s : State) : State :=
  set_tenants
    (alter (λ r, {| tenant_id := tenant_id r; tenant_name := tenant_name r;
                    tenant_isActive := false;
                    tenant_config := tenant_config r |}) tenantId (tenants s)) s.

(** The map of pooled clients respects the limit, and no key is the empty
    string (an empty first key is falsy in [evictOldestClient] and would
    never be evicted). *)
Definition within_limit (s : State) : Prop :=
  JsMap.size (prismaClients s) ≤ maxConnections s ∧
  Forall (λ k, k ≠ EmptyString) (JsMap.keys (prismaClients s)).

(** ** The rest of the class *)

(** What [resolveTenantId] reads of an Express request: the [tenantId] route
    parameter, the [tenantId] query parameter (a string, or something else:
    an array, a nested object) and the [tenant_id] of [request.user]. *)
Inductive query_value :=
| QueryString (s : string)
| QueryOther.

Record User := {
  user_tenant_id : option string;
}.

Record Request := {
  params_tenantId : option string;
  query_tenantId : option query_value;
  request_user : option User;
}.

(** [null] is [None]. The function is [async] and touches nothing. *)
Definition resolveTenantId (request : Request) : option string :=
  let from_user :=
    match request_user request with
    | Some user =>
        match user_tenant_id user with
        | Some t => if truthy t then Some t else None
        | None => None
        end
    | None => None
    end in
  let from_query :=
    match query_tenantId request with
    | Some (QueryString t) => if truthy t then Some t else from_user
    | _ => from_user
    end in
  match params_tenantId request with
  | Some t => if truthy t then Some t else from_query
  | None => from_query
  end.

(** [client.$queryRaw`SELECT 1`]: a fallible call on the tenant's client,
    which connects for it if it has to; the answer is dropped. *)
Definition queryRaw_select1 (c : PrismaClient) : M unit :=
  backend_call;;
  modify (λ s, set_connected ({[ref c]} ∪ connected s) s).

Definition checkTenantHealth (tenantId : string) : M bool :=
  try_catch
    (client ← getPrismaClient tenantId;
     queryRaw_select1 client;;
     mret true)
    (λ _, mret false).

(** ** Calls from outside, one after the other

    The public methods, the event loop running the timers that are due, and
    writes to the tenant table that do not go through this class. *)
Inductive call :=
| CallGetPrismaClient (tenantId : string)
| CallCheckTenantHealth (tenantId : string)
| CallValidateTenant (tenantId : string)
| CallGetTenantContext (tenantId : string)
| CallCreateTenantDatabase (tenantId : string)
| CallDropTenantDatabase (tenantId : string)
| CallBackupTenantDatabase (tenantId backupPath : string)
| CallRestoreTenantDatabase (tenantId backupPath : string)
| CallDisconnectTenant (tenantId : string)
| CallDisconnectAll
| CallClearCache (tenantId : option string)
| CallGetActiveTenants
| TimersUntil (t : Z)
| TenantTableBecomes (rows : gmap string TenantRecord).

Definition run_call (s : State) (c : call) : State :=
  match c with
  | CallGetPrismaClient t => after (getPrismaClient t) s
  | CallCheckTenantHealth t => after (checkTenantHealth t) s
  | CallValidateTenant t => after (validateTenant t) s
  | CallGetTenantContext t => after (getTenantContext t) s
  | CallCreateTenantDatabase t => after (createTenantDatabase t) s
  | CallDropTenantDatabase t => after (dropTenantDatabase t) s
  | CallBackupTenantDatabase t p => after (backupTenantDatabase t p) s
  | CallRestoreTenantDatabase t p => after (restoreTenantDatabase t p) s
  | CallDisconnectTenant t => after (disconnectTenant t) s
  | CallDisconnectAll => after disconnectAll s
  | CallClearCache o => after (clearCache o) s
  | CallGetActiveTenants => after getActiveTenants s
  | TimersUntil t => advance t s
  | TenantTableBecomes rows => set_tenants rows s
  end.

Definition run_calls (s : State) (cs : list call) : State := foldl run_call s cs.

(** The tenant ids handed to the methods that may pool a client are not
    empty. *)
Definition pools_nonempty_id (c : call) : Prop :=
  match c with
  | CallGetPrismaClient t | CallCheckTenantHealth t => t ≠ EmptyString
  | _ => True
  end.

(** The bookkeeping of the pool: the keys of the map are distinct, so are
    the clients, every pooled client holds an open connection, and the next
    client object is a new one. *)
Definition consistent (m : list (string * PrismaClient)) (conn : gset nat) (next : nat) : Prop :=
  NoDup (JsMap.keys m) ∧
  NoDup (ref <$> JsMap.values m) ∧
  Forall (λ c, ref c ∈ conn ∧ (ref c < next)%nat) (JsMap.values m).

Definition pool_consistent (s : State) : Prop :=
  consistent (prismaClients s) (connected s) (nextRef s).

(** Does the character occur in the string? *)
Fixpoint occurs (c : ascii) (s : string) : bool :=
  match s with
  | EmptyString => false
  | String c' s' => if Ascii.eqb c' c then true else occurs c s'
  end.

(** No connection is open that the pool does not know of: every open
    connection is that of a pooled client. *)
Definition tracked (s : State) : Prop :=
  ∀ r, r ∈ connected s → r ∈ ref <$> JsMap.values (prismaClients s).

(** * [ConfigManager]

    The parts of the class that stand on their own: the list of providers,
    the list of watchers, the feature flags and [validate]. The paths of
    [get] and [set], the deep merge of [mergeConfig] and the reading of the
    environment work on arbitrary JavaScript objects and are not embedded. *)
Module ConfigManager.

(** ** Providers *)

(** A [ConfigProvider], without its [load] and [watch] functions; the
    priority is taken to be an integer. *)
Record ConfigProvider := { name : string; priority : Z }.

(** [Array.prototype.sort(compare)]: a stable sort. [compare a b] is
    negative when [a] goes first, positive when [b] goes first; elements that
    compare equal keep their order. *)
Fixpoint sort_insert {A} (compare : A → A → Z) (a : A) (l : list A) : list A :=
  match l with
  | [] => [a]
  | b :: l' => if compare a b <=? 0 then a :: b :: l' else b :: sort_insert compare a l'
  end.

Definition sort {A} (compare : A → A → Z) (l : list A) : list A :=
  foldr (sort_insert compare) [] l.

(** [this.providers.push(provider);
     this.providers.sort((a, b) => a.priority - b.priority)] *)
Definition addProvider (provider : ConfigProvider) (providers : list ConfigProvider) :
    list ConfigProvider :=
  sort (λ a b, priority a - priority b) (providers ++ [provider]).

(** ** Watchers *)

(** A callback is known by its identity, as [indexOf] compares function
    objects. [indexOf] gives the first index, or -1. *)
Fixpoint indexOf (callback : nat) (watchers : list nat) : Z :=
  match watchers with
  | [] => -1
  | w :: watchers' =>
      if Nat.eqb w callback then 0
      else let i := indexOf callback watchers' in
           if i =? -1 then -1 else i + 1
  end.

(** [watchers.splice(index, 1)] for an index that is not negative *)
Definition splice1 (index : Z) (watchers : list nat) : list nat :=
  take (Z.to_nat index) watchers ++ drop (S (Z.to_nat index)) watchers.

(** [watch(callback)]: the callback is pushed; the function it returns is
    [unsubscribe callback]. *)
Definition watch (callback : nat) (watchers : list nat) : list nat :=
  watchers ++ [callback].

Definition unsubscribe (callback : nat) (watchers : list nat) : list nat :=
  let index := indexOf callback watchers in
  if index >? -1 then splice1 index watchers else watchers.

(** ** Feature flags *)

(** [featureFlags] is a plain object; the map holds its own properties.
    [Object.prototype] is taken to be as the language defines it: what is
    inherited from it is never [true]. *)
Definition proto : string := "__proto__".

(** [this.featureFlags[feature] = value]. For the key [__proto__] the
    assignment goes to the setter of [Object.prototype], which ignores a
    boolean, unless the object has a property of that name of its own (an
    object spread can give it one). *)
Definition assign (feature : string) (value : bool) (featureFlags : gmap string bool) :
    gmap string bool :=
  if bool_decide (feature = proto) && bool_decide (featureFlags !! feature = None)
  then featureFlags
  else <[feature := value]> featureFlags.

(** [this.featureFlags[feature] === true] *)
Definition isFeatureEnabled (feature : string) (featureFlags : gmap string bool) : bool :=
  bool_decide (featureFlags !! feature = Some true).

Definition enableFeature (feature : string) (featureFlags : gmap string bool) :
    gmap string bool :=
  assign feature true featureFlags.

Definition disableFeature (feature : string) (featureFlags : gmap string bool) :
    gmap string bool :=
  assign feature false featureFlags.

(** [{ ...this.featureFlags }] *)
Definition getFeatureFlags (featureFlags : gmap string bool) : gmap string bool :=
  featureFlags.

(** [this.featureFlags = { ...this.featureFlags, ...flags }] *)
Definition setFeatureFlags (flags featureFlags : gmap string bool) : gmap string bool :=
  flags ∪ featureFlags.

(** ** Validation *)

(** A number as [parseInt] gives it: an integer, or [NaN]. *)
Inductive number := NaN | Num (n : Z).

(** [a < b] and [a > b]: false when [a] is [NaN]. *)
Definition lt (a : number) (b : Z) : bool :=
  match a with NaN => false | Num n => n <? b end.

Definition gt (a : number) (b : Z) : bool :=
  match a with NaN => false | Num n => n >? b end.

(** The fields of [AppConfig] that [validate] reads. *)
Record AppConfig := {
  environment : string;
  port : number;
  database_url : string;
  auth_jwt_secret : string;
  security_encryption_key : string }.

(** [l.includes(s)] on an array of strings *)
Definition includes (s : string) (l : list string) : bool :=
  existsb (String.eqb s) l.

(** [l.join(sep)] *)
Fixpoint join (sep : string) (l : list string) : string :=
  match l with
  | [] => EmptyString
  | [s] => s
  | s :: l' => s +:+ sep +:+ join sep l'
  end.

Record ValidationResult := { valid : bool; errors : list string }.

(** [if (c) errors.push(msg)] *)
Definition push_if (c : bool) (msg : string) (errors : list string) : list string :=
  if c then errors ++ [msg] else errors.

Definition validEnvs : list string := ["development"; "staging"; "production"].

Definition validate (config : AppConfig) : ValidationResult :=
  let errors := [] in
  let errors :=
    push_if (negb (truthy (database_url config))) "Database URL is required" errors in
  let errors :=
    push_if (negb (truthy (auth_jwt_secret config))
             || String.eqb (auth_jwt_secret config) "default-secret-change-in-production")
      "JWT secret must be configured" errors in
  let errors :=
    push_if (negb (truthy (security_encryption_key config))
             || String.eqb (security_encryption_key config)
                  "default-encryption-key-change-in-production")
      "Encryption key must be configured" errors in
  let errors :=
    push_if (lt (port config) 1 || gt (port config) 65535)
      "Port must be between 1 and 65535" errors in
  let errors :=
    push_if (negb (includes (environment config) validEnvs))
      ("Environment must be one of: " +:+ join ", " validEnvs) errors in
  {| valid := Nat.eqb (length errors) 0; errors := errors |}.

End ConfigManager.

(** * Properties *)

(** ** Symbolic execution *)

Ltac run1 :=
  unfold getPrismaClient, getPrismaClient_dial, getPrismaClient_resume,
    getPrismaClient_admit, enforce_limit,
    createTenantDatabase, dropTenantDatabase,
    backupTenantDatabase, restoreTenantDatabase, disconnectTenant, clearCache,
    validateTenant, getTenantContext, evictOldestClient,
    getDatabaseUrlForTenant, cache_put,
    findUnique, tenant_update, executeRawUnsafe, master_disconnect,
    new_PrismaClient, connect, disconnect,
    prismaClients_set, prismaClients_delete, prismaClients_clear,
    tenantCache_set, tenantCache_delete, tenantCache_clear, setTimeout_delete,
    master_query, backend_call, close_call, not_valid,
    mbind, mret, M_bind, M_ret, emit, modify, gets, throw, try_catch;
  cbn [fst snd
       set_tenantCache set_prismaClients set_tenants set_databases set_connected
       set_masterConnected set_nextRef set_faults set_closeFaults set_now set_timers
       set_trace
       masterDatabaseUrl databaseUrlTemplate maxConnections cacheTtl tenantCache
       prismaClients tenants databases connected masterConnected nextRef faults
       closeFaults now timers trace].
Ltac run := repeat (progress run1).

(** Case analysis on the innermost scrutinee of the goal. *)
Ltac split_match :=
  match goal with
  | |- context [match ?x with _ => _ end] =>
      lazymatch x with
      | context [match _ with _ => _ end] => fail
      | _ => destruct x eqn:?
      end
  end.

Ltac explore := run; repeat (split_match; run).

(** Closed facts about the examples, one conjunct at a time. *)
Ltac split_all :=
  repeat lazymatch goal with
         | |- _ ∧ _ => split
         | |- let _ := _ in _ => intro
         end.

(** ** Running the monad *)

Lemma bind_run {A B} (m : M A) (f : A → M B) (s : State) :
  (m ≫= f) s =
  match m s with
  | (Returns a, s') => f a s'
  | (Throws e, s') => (Throws e, s')
  end.
Proof. reflexivity. Qed.

Lemma mapM_cons {A B} (f : A → M B) (x : A) (l : list A) (s : State) :
  mapM f (x :: l) s = (y ← f x; ys ← mapM f l; mret (y :: ys)) s.
Proof. reflexivity. Qed.

Lemma mapM_cons_returns {A B} (f : A → M B) (x : A) (l : list A) (s : State) ys s' :
  mapM f (x :: l) s = (Returns ys, s') →
  ∃ y ys' s1, f x s = (Returns y, s1) ∧ mapM f l s1 = (Returns ys', s') ∧ ys = y :: ys'.
Proof.
  rewrite mapM_cons, bind_run. destruct (f x s) as [[y|e] s1] eqn:Hx; [|discriminate].
  rewrite bind_run. destruct (mapM f l s1) as [[ys'|e] s2] eqn:Hl; [|discriminate].
  unfold mret, M_ret. intros [= <- <-]. by exists y, ys', s1.
Qed.

Lemma mapM_app_returns {A B} (f : A → M B) (l1 l2 : list A) (s : State) ys s' :
  mapM f (l1 ++ l2) s = (Returns ys, s') →
  ∃ ys1 ys2 s1, mapM f l1 s = (Returns ys1, s1) ∧
                mapM f l2 s1 = (Returns ys2, s') ∧ ys = ys1 ++ ys2.
Proof.
  revert s ys. induction l1 as [|x l1 IH]; intros s ys.
  - intros H. by exists [], ys, s.
  - rewrite <- app_comm_cons. intros H.
    apply mapM_cons_returns in H as (y & ys' & s0 & Hx & Hrest & ->).
    apply IH in Hrest as (ys1 & ys2 & s1 & H1 & H2 & ->).
    exists (y :: ys1), ys2, s1. split; [|done].
    by rewrite mapM_cons, bind_run, Hx, bind_run, H1.
Qed.

(** ** The map in insertion order *)

Section JsMapFacts.
Context {V : Type}.
Implicit Types (m : list (string * V)) (k : string) (v : V).

Lemma get_None_keys k m : JsMap.get k m = None ↔ k ∉ JsMap.keys m.
Proof.
  unfold JsMap.keys. induction m as [|[k' v'] m IH]; simpl.
  - split; [intros _; apply not_elem_of_nil | done].
  - rewrite not_elem_of_cons. destruct (String.eqb_spec k' k) as [->|Hne].
    + split; [done | intros [? _]; done].
    + rewrite IH. split; [intros ?; split; [congruence | done] | intros [_ ?]; done].
Qed.

(** [set] on a key that is not there appends. *)
Lemma set_fresh k v m : JsMap.get k m = None → JsMap.set k v m = m ++ [(k, v)].
Proof.
  induction m as [|[k' v'] m IH]; simpl; [done|].
  destruct (k' =? k)%string; [done|]. intros H. by rewrite IH.
Qed.

Lemma get_snoc_fresh k v m :
  JsMap.get k m = None → JsMap.get k (m ++ [(k, v)]) = Some v.
Proof.
  induction m as [|[k' v'] m IH]; simpl.
  - by rewrite String.eqb_refl.
  - destruct (k' =? k)%string; [done | apply IH].
Qed.

(** [delete] of a key that is not there changes nothing. *)
Lemma delete_absent k m : JsMap.get k m = None → JsMap.delete k m = m.
Proof.
  induction m as [|[k' v'] m IH]; simpl; [done|].
  destruct (k' =? k)%string; [done|]. intros H. by rewrite IH.
Qed.

End JsMapFacts.

Lemma truthy_nonempty (k : string) : k ≠ EmptyString → truthy k = true.
Proof. unfold truthy. destruct (String.eqb_spec k EmptyString); [done | by intros _]. Qed.

Lemma dials_app (tr1 tr2 : list event) : dials (tr1 ++ tr2) = (dials tr1 + dials tr2)%nat.
Proof.
  induction tr1 as [|e tr1 IH]; simpl; [done|].
  destruct e; simpl; by rewrite IH.
Qed.

(** ** The constructor's defaults *)

(** A configured maximum of 0 is falsy and stands for 10; no configured
    time to live stands for five minutes; the template is made from the
    master url. *)
Example constructor_defaults :
  let s := constructor
             {| cfg_masterDatabaseUrl := "postgresql://u:p@h:5432/master";
                cfg_databaseUrlTemplate := None;
                cfg_maxConnections := Some 0;
                cfg_cacheTtl := None |} ∅ ∅ [] [] in
  maxConnections s = 10 ∧ cacheTtl s = 300000 ∧
  databaseUrlTemplate s = "postgresql://u:p@h:5432/tenant_{tenantId}".
Proof. split_all; vm_compute; reflexivity. Qed.

(** ** The two halves make the whole *)

Lemma getPrismaClient_split (tenantId : string) (s : State) :
  getPrismaClient tenantId s =
  (getPrismaClient_dial tenantId ≫= getPrismaClient_resume tenantId) s.
Proof. explore; reflexivity. Qed.

(** ** The dial *)

Lemma getPrismaClient_dial_spec (tenantId : string) (s : State) o s1 :
  getPrismaClient_dial tenantId s = (o, s1) →
  prismaClients s1 = prismaClients s ∧ maxConnections s1 = maxConnections s ∧
  tenants s1 = tenants s ∧ closeFaults s1 = closeFaults s ∧
  match o with
  | Returns (inl c) => JsMap.get tenantId (prismaClients s) = Some c ∧ s1 = s
  | Returns (inr c) =>
      JsMap.get tenantId (prismaClients s) = None ∧
      ref c = nextRef s ∧ nextRef s1 = S (nextRef s) ∧
      connected s1 = {[ref c]} ∪ connected s ∧
      dials (trace s1) = S (dials (trace s)) ∧
      last (trace s1) = Some (Connect c)
  | Throws e =>
      JsMap.get tenantId (prismaClients s) = None ∧
      connected s1 = connected s ∧
      (e = Error ("Invalid tenant: " +:+ tenantId) ∨
       e = Error ("No database configured for tenant: " +:+ tenantId) ∨
       e = Error ("Database connection failed for tenant " +:+ tenantId))
  end.
Proof.
  explore; intros H; inversion H; subst; clear H; run;
    repeat split; try done;
    rewrite ?last_snoc, ?dials_app; simpl; try done; try lia; auto.
Qed.

(** ** Admission *)

(** What admission does, in full. The new entry goes to the end of the map.
    If the map then holds more than the maximum and its first key is not
    empty, [$disconnect] is called on the first client; unless that is
    rejected, the first key is deleted. A rejection ends the call: the new
    entry is in the map and the first one still is. *)
Lemma getPrismaClient_admit_run (tenantId : string) (c : PrismaClient) (s : State) :
  JsMap.get tenantId (prismaClients s) = None →
  ∃ o s', getPrismaClient_admit tenantId c s = (o, s') ∧
    nextRef s' = nextRef s ∧ maxConnections s' = maxConnections s ∧
    match prismaClients s ++ [(tenantId, c)] with
    | (k, c0) :: p =>
        if bool_decide (JsMap.size (prismaClients s) + 1 > maxConnections s) && truthy k
        then match closeFaults s with
             | true :: cfs =>
                 (∃ e, o = Throws e) ∧
                 prismaClients s' = prismaClients s ++ [(tenantId, c)] ∧
                 connected s' = connected s ∧ closeFaults s' = cfs ∧
                 trace s' = trace s ++ [ClientsSet tenantId c; Disconnect c0]
             | cfs =>
                 o = Returns c ∧ prismaClients s' = p ∧
                 connected s' = connected s ∖ {[ref c0]} ∧
                 closeFaults s' = tail cfs ∧
                 trace s' = trace s ++
                   [ClientsSet tenantId c; Disconnect c0; ClientsDelete k]
             end
        else o = Returns c ∧
             prismaClients s' = prismaClients s ++ [(tenantId, c)] ∧
             connected s' = connected s ∧ closeFaults s' = closeFaults s ∧
             trace s' = trace s ++ [ClientsSet tenantId c]
    | [] => False
    end.
Proof.
  intros Hfresh. run. rewrite set_fresh by done.
  assert (Hsize : JsMap.size (prismaClients s ++ [(tenantId, c)]) =
                  JsMap.size (prismaClients s) + 1).
  { unfold JsMap.size. rewrite length_app. simpl. lia. }
  rewrite Hsize.
  destruct (prismaClients s ++ [(tenantId, c)]) as [|[k c0] p] eqn:Hpool.
  { by destruct (prismaClients s). }
  case_bool_decide; run; cbn [JsMap.first_key andb].
  - destruct (truthy k); run.
    + cbn [JsMap.get]. rewrite String.eqb_refl. run.
      destruct (closeFaults s) as [|[] cfs] eqn:Hcf; run;
        cbn [JsMap.delete]; rewrite ?String.eqb_refl;
        (eexists _, _; split; [reflexivity|]); run;
        rewrite <- ?app_assoc, ?Hcf; simpl; split_all; try done.
      by eexists.
    + eexists _, _. split; [reflexivity|]. by run.
  - eexists _, _. split; [reflexivity|]. by run.
Qed.

(** Room left: the new entry goes to the end of the map and nothing else
    happens. *)
Lemma getPrismaClient_admit_below (tenantId : string) (c : PrismaClient) (s : State) :
  JsMap.get tenantId (prismaClients s) = None →
  JsMap.size (prismaClients s) + 1 ≤ maxConnections s →
  ∃ s', getPrismaClient_admit tenantId c s = (Returns c, s') ∧
    prismaClients s' = prismaClients s ++ [(tenantId, c)] ∧
    connected s' = connected s ∧
    maxConnections s' = maxConnections s ∧ nextRef s' = nextRef s ∧
    closeFaults s' = closeFaults s ∧
    trace s' = trace s ++ [ClientsSet tenantId c].
Proof.
  intros Hfresh Hsize.
  destruct (getPrismaClient_admit_run tenantId c s Hfresh) as (o & s' & Hrun & Hn & Hm & H).
  destruct (prismaClients s ++ [(tenantId, c)]) as [|[k c0] p]; [done|].
  rewrite bool_decide_eq_false_2 in H by lia. simpl in H.
  destruct H as (-> & Hp & Hc & Hcf & Ht). by exists s'.
Qed.

(** Map full: the new entry is set first, then the first key of the map is
    looked up and its client disconnected; if that goes through the key is
    deleted. *)
Lemma getPrismaClient_admit_full (tenantId : string) (c : PrismaClient) (s : State)
    k c0 p c' s' :
  JsMap.get tenantId (prismaClients s) = None →
  prismaClients s = (k, c0) :: p → k ≠ EmptyString →
  JsMap.size (prismaClients s) + 1 > maxConnections s →
  getPrismaClient_admit tenantId c s = (Returns c', s') →
  c' = c ∧
  prismaClients s' = p ++ [(tenantId, c)] ∧
  connected s' = connected s ∖ {[ref c0]} ∧
  maxConnections s' = maxConnections s ∧ nextRef s' = nextRef s ∧
  closeFaults s' = tail (closeFaults s) ∧
  trace s' = trace s ++ [ClientsSet tenantId c; Disconnect c0; ClientsDelete k].
Proof.
  intros Hfresh Hpool Hk Hsize Hcall.
  destruct (getPrismaClient_admit_run tenantId c s Hfresh) as (o & s1 & Hrun & Hn & Hm & H).
  rewrite Hcall in Hrun. injection Hrun as <- <-.
  rewrite Hpool in H. simpl in H. rewrite <- Hpool in H.
  rewrite bool_decide_eq_true_2, (truthy_nonempty k Hk) in H by done. simpl in H.
  destruct (closeFaults s) as [|[] cfs].
  - by destruct H as ([= ->] & -> & -> & -> & ->).
  - by destruct H as ([e [=]] & _).
  - by destruct H as ([= ->] & -> & -> & -> & ->).
Qed.


(** When admission fails it is the close of the first client that was
    rejected: the map holds the new entry and all the old ones. *)
Lemma getPrismaClient_admit_throws (tenantId : string) (c : PrismaClient) (s : State) e s' :
  JsMap.get tenantId (prismaClients s) = None →
  getPrismaClient_admit tenantId c s = (Throws e, s') →
  prismaClients s' = prismaClients s ++ [(tenantId, c)] ∧
  connected s' = connected s ∧
  maxConnections s' = maxConnections s ∧ nextRef s' = nextRef s ∧
  JsMap.size (prismaClients s) + 1 > maxConnections s ∧
  head (closeFaults s) = Some true ∧ closeFaults s' = tail (closeFaults s) ∧
  ∃ k c0 p, prismaClients s ++ [(tenantId, c)] = (k, c0) :: p ∧ k ≠ EmptyString ∧
            trace s' = trace s ++ [ClientsSet tenantId c; Disconnect c0].
Proof.
  intros Hfresh Hcall.
  destruct (getPrismaClient_admit_run tenantId c s Hfresh) as (o & s1 & Hrun & Hn & Hm & H).
  rewrite Hcall in Hrun. injection Hrun as <- <-.
  destruct (prismaClients s ++ [(tenantId, c)]) as [|[k c0] p]; [done|].
  case_bool_decide as Hsize; simpl in H; [|by destruct H as ([=] & _)].
  destruct (truthy k) eqn:Hk; [|by destruct H as ([=] & _)].
  destruct (closeFaults s) as [|[] cfs]; [by destruct H as ([=] & _) | |
                                          by destruct H as ([=] & _)].
  destruct H as (_ & -> & -> & -> & ->).
  split_all; try done. exists k, c0, p. split_all; try done.
  intros ->. discriminate.
Qed.

(** A pooled client is handed out as it is: no effect at all. *)
Lemma getPrismaClient_pooled (tenantId : string) (c : PrismaClient) (s : State) :
  JsMap.get tenantId (prismaClients s) = Some c →
  getPrismaClient tenantId s = (Returns c, s).
Proof. intros H. run. by rewrite H. Qed.

(** ** Calls that fail *)

(** A call that fails either stopped before the dial was over, and left
    the map and the connections alone; or its dial went through and the
    close of the client it was about to evict was rejected: the new client
    is connected and in the map, and so is every entry that was there. *)
Lemma getPrismaClient_throws (tenantId : string) (s : State) e s1 :
  getPrismaClient tenantId s = (Throws e, s1) →
  maxConnections s1 = maxConnections s ∧
  ((prismaClients s1 = prismaClients s ∧ connected s1 = connected s ∧
    closeFaults s1 = closeFaults s ∧
    (e = Error ("Invalid tenant: " +:+ tenantId) ∨
     e = Error ("No database configured for tenant: " +:+ tenantId) ∨
     e = Error ("Database connection failed for tenant " +:+ tenantId))) ∨
   (∃ c, prismaClients s1 = prismaClients s ++ [(tenantId, c)] ∧
         ref c = nextRef s ∧ nextRef s1 = S (nextRef s) ∧
         connected s1 = {[ref c]} ∪ connected s ∧
         JsMap.size (prismaClients s) + 1 > maxConnections s ∧
         head (closeFaults s) = Some true ∧
         closeFaults s1 = tail (closeFaults s))).
Proof.
  rewrite getPrismaClient_split, bind_run.
  destruct (getPrismaClient_dial tenantId s) as [[[c|c]|e1] s0] eqn:Hdial;
    apply getPrismaClient_dial_spec in Hdial as (Hpool & Hmax & _ & Hcf & Hdial).
  - simpl. unfold mret, M_ret. discriminate.
  - simpl. intros Hadmit. destruct Hdial as (Hfresh & Href & Hnext & Hconn & _).
    apply getPrismaClient_admit_throws in Hadmit
      as (Hp & Hc & Hm & Hn & Hsize & Hhead & Htail & _); [|congruence].
    split; [congruence|]. right. exists c.
    rewrite Hp, Hc, Hn, Htail, Hpool, Hconn, Hnext, <- Hcf, <- Hmax, <- Hpool. done.
  - intros [= <- <-]. destruct Hdial as (_ & Hconn & He).
    split; [done|]. by left.
Qed.

(** C9, as the code has it. If [getPrismaClient] fails because the tenant
    is missing or inactive, no database url can be resolved, or the dial
    fails, the map of pooled clients is exactly what it was, and no client
    was closed: the set of open connections is unchanged as well. The one
    other way for the call to fail is in the eviction, after the new client
    was set in the map: the map is over the maximum and the [$disconnect] of
    the oldest client is rejected. Then the new entry is in the map, the
    oldest is still there, and nothing was closed. *)
Theorem C9_failed_call_leaves_pool (tenantId : string) (s : State) e s' :
  getPrismaClient tenantId s = (Throws e, s') →
  (prismaClients s' = prismaClients s ∧
   connected s' = connected s ∧
   (e = Error ("Invalid tenant: " +:+ tenantId) ∨
    e = Error ("No database configured for tenant: " +:+ tenantId) ∨
    e = Error ("Database connection failed for tenant " +:+ tenantId))) ∨
  (head (closeFaults s) = Some true ∧
   JsMap.size (prismaClients s) + 1 > maxConnections s ∧
   ∃ c, prismaClients s' = prismaClients s ++ [(tenantId, c)] ∧
        connected s' = {[ref c]} ∪ connected s).
Proof.
  intros Hcall.
  apply getPrismaClient_throws in Hcall
    as (_ & [(Hpool & Hconn & _ & He) | (c & Hpool & _ & _ & Hconn & Hsize & Hhead & _)]).
  - by left.
  - right. split_all; [done | done |]. by exists c.
Qed.

(** [a] is pooled; the dial for [b] fails. *)
Lemma C9_witness :
  let s := after (getPrismaClient "a") example_state_flaky in
  let s' := after (getPrismaClient "b") s in
  let e := Error "Database connection failed for tenant b" in
  (prismaClients s' = prismaClients s ∧
   connected s' = connected s ∧
   (e = Error ("Invalid tenant: " +:+ "b") ∨
    e = Error ("No database configured for tenant: " +:+ "b") ∨
    e = Error ("Database connection failed for tenant " +:+ "b"))) ∨
  (head (closeFaults s) = Some true ∧
   JsMap.size (prismaClients s) + 1 > maxConnections s ∧
   ∃ c, prismaClients s' = prismaClients s ++ [("b", c)] ∧
        connected s' = {[ref c]} ∪ connected s).
Proof.
  intros s s' e.
  apply (C9_failed_call_leaves_pool "b" s e s').
  vm_compute. reflexivity.
Defined.

(** C9, as stated, fails: a call can fail after it has changed the map.
    The maximum is two, [a] and [b] are pooled, and the backend rejects the
    next [$disconnect]. The call for [c] dials, sets its client in the map,
    asks the client of [a] to disconnect, and fails with the rejection: the
    map now holds [a], [b] and [c]. *)
Lemma C9_counterexample :
  let ca := {| ref := 0; datasource := "postgresql://u:p@h:5432/tenant_a" |} in
  let cb := {| ref := 1; datasource := "postgresql://u:p@h:5432/tenant_b" |} in
  let cc := {| ref := 2; datasource := "postgresql://u:p@h:5432/tenant_c" |} in
  let s := after (mapM getPrismaClient ["a"; "b"]) example_state_close_rejected in
  let s' := after (getPrismaClient "c") s in
  prismaClients s = [("a", ca); ("b", cb)] ∧
  (∃ e, result (getPrismaClient "c") s = Throws e) ∧
  prismaClients s' = [("a", ca); ("b", cb); ("c", cc)] ∧
  prismaClients s' ≠ prismaClients s.
Proof.
  split_all; try (vm_compute; reflexivity).
  - eexists. vm_compute. reflexivity.
  - vm_compute. discriminate.
Qed.

(** ** Missing and inactive tenants *)

(** C2, as the code has it. Take a tenant id that is absent from the
    tenant table or inactive. If it has no pooled client, [getPrismaClient]
    throws "Invalid tenant" and the pool is what it was, whatever the
    backend does (a failing lookup counts as invalid too). If it has one,
    the pooled client is returned and nothing else happens: the tenant table
    is not consulted. *)
Theorem C2_invalid_tenant_without_pooled_client (tenantId : string) (s : State) :
  (tenants s !! tenantId = None ∨
   ∃ r, tenants s !! tenantId = Some r ∧ tenant_isActive r = false) →
  match JsMap.get tenantId (prismaClients s) with
  | None =>
      ∃ s', getPrismaClient tenantId s =
              (Throws (Error ("Invalid tenant: " +:+ tenantId)), s') ∧
            prismaClients s' = prismaClients s
  | Some c => getPrismaClient tenantId s = (Returns c, s)
  end.
Proof.
  intros Hdir.
  destruct (JsMap.get tenantId (prismaClients s)) as [c|] eqn:Hget;
    [by apply getPrismaClient_pooled|].
  run. rewrite Hget.
  destruct (faults s) as [|[] fs]; run;
    destruct Hdir as [Hd | (r & Hd & Hr)]; rewrite ?Hd; simpl; rewrite ?Hr; simpl;
    (eexists; split; [reflexivity | done]).
Qed.

Lemma C2_witness :
  ∃ s', getPrismaClient "d" example_state =
          (Throws (Error ("Invalid tenant: " +:+ "d")), s') ∧
        prismaClients s' = prismaClients example_state.
Proof.
  apply (C2_invalid_tenant_without_pooled_client "d" example_state).
  right. exists (row "d" false). split; vm_compute; reflexivity.
Defined.

(** C2, as stated, fails: the pool is looked up before the tenant table.
    Tenant [a] is pooled and then switched off; the next call for [a] does
    not fail, it hands out the pooled client. *)
Lemma C2_counterexample :
  let s := deactivate "a" (after (getPrismaClient "a") example_state) in
  (∃ r, tenants s !! "a" = Some r ∧ tenant_isActive r = false) ∧
  (∃ c, getPrismaClient "a" s = (Returns c, s)) ∧
  ∀ e s', getPrismaClient "a" s ≠ (Throws e, s').
Proof.
  split_all.
  - eexists. split; vm_compute; reflexivity.
  - eexists. vm_compute. reflexivity.
  - intros e s'. vm_compute. discriminate.
Qed.

(** ** One dial per tenant, for calls that do not overlap *)

Lemma mapM_getPrismaClient_pooled (tenantId : string) (c : PrismaClient) (s : State) (n : nat) :
  JsMap.get tenantId (prismaClients s) = Some c →
  mapM getPrismaClient (replicate n tenantId) s = (Returns (replicate n c), s).
Proof.
  intros Hpooled. induction n as [|n IH]; [done|].
  cbn [replicate]. rewrite mapM_cons, bind_run.
  rewrite (getPrismaClient_pooled _ _ _ Hpooled), bind_run. by rewrite IH.
Qed.




(** ** The limit on pooled clients *)

(** A call for a tenant that is not pooled, with room left. *)
Lemma getPrismaClient_fresh_below (tenantId : string) (s : State) c s1 :
  JsMap.get tenantId (prismaClients s) = None →
  JsMap.size (prismaClients s) + 1 ≤ maxConnections s →
  getPrismaClient tenantId s = (Returns c, s1) →
  prismaClients s1 = prismaClients s ++ [(tenantId, c)] ∧
  maxConnections s1 = maxConnections s ∧
  closeFaults s1 = closeFaults s.
Proof.
  intros Hfresh Hsize. rewrite getPrismaClient_split, bind_run.
  destruct (getPrismaClient_dial tenantId s) as [[[c0|c0]|e1] s0] eqn:Hdial;
    apply getPrismaClient_dial_spec in Hdial as (Hpool & Hmax & _ & Hcf & Hdial).
  - destruct Hdial as [Hpooled _]. congruence.
  - simpl.
    destruct (getPrismaClient_admit_below tenantId c0 s0)
      as (s2 & -> & Hp & _ & Hm & _ & Hcf2 & _); [congruence | rewrite Hpool, Hmax; lia |].
    intros [= <- <-]. split_all; congruence.
  - discriminate.
Qed.

(** A call for a tenant that is not pooled, with the map full, that
    returns: the client is dialled and set, then the oldest entry is closed
    and deleted. *)
Lemma getPrismaClient_fresh_full (tenantId : string) (s : State) c s1 k c0 p :
  JsMap.get tenantId (prismaClients s) = None →
  prismaClients s = (k, c0) :: p → k ≠ EmptyString →
  JsMap.size (prismaClients s) + 1 > maxConnections s →
  getPrismaClient tenantId s = (Returns c, s1) →
  prismaClients s1 = p ++ [(tenantId, c)] ∧
  maxConnections s1 = maxConnections s ∧
  closeFaults s1 = tail (closeFaults s) ∧
  closed c0 s1 ∧
  ∃ tr, trace s1 = tr ++ [Connect c; ClientsSet tenantId c; Disconnect c0; ClientsDelete k].
Proof.
  intros Hfresh Hfirst Hk Hsize. rewrite getPrismaClient_split, bind_run.
  destruct (getPrismaClient_dial tenantId s) as [[[c1|c1]|e1] s0] eqn:Hdial;
    apply getPrismaClient_dial_spec in Hdial as (Hpool & Hmax & _ & Hcf & Hdial).
  - destruct Hdial as [Hpooled _]. congruence.
  - simpl. destruct Hdial as (_ & _ & _ & _ & _ & Hlast).
    apply last_Some in Hlast as [tr Htr]. intros Hadmit.
    apply (getPrismaClient_admit_full tenantId c1 s0 k c0 p) in Hadmit
      as (-> & Hp & Hconn & Hm & _ & Hcf2 & Htrace);
      [| congruence | congruence | done | rewrite Hpool, Hmax; lia].
    split_all; [done | congruence | congruence | |].
    + unfold closed. rewrite Hconn, not_elem_of_difference.
      right. by apply elem_of_singleton.
    + exists tr. rewrite Htrace, Htr, <- app_assoc. done.
  - discriminate.
Qed.

(** As long as no [$disconnect] is rejected, any call, whatever its
    outcome, keeps the map within the limit. *)
Lemma getPrismaClient_within_limit (tenantId : string) (s : State) :
  1 ≤ maxConnections s → tenantId ≠ EmptyString → closeFaults s = [] →
  within_limit s → within_limit (after (getPrismaClient tenantId) s) ∧
  maxConnections (after (getPrismaClient tenantId) s) = maxConnections s ∧
  closeFaults (after (getPrismaClient tenantId) s) = [].
Proof.
  intros Hmax Hid Hcf [Hsize Hkeys]. unfold after.
  destruct (getPrismaClient tenantId s) as [o s1] eqn:Hcall. simpl.
  destruct (JsMap.get tenantId (prismaClients s)) as [c|] eqn:Hget.
  { rewrite (getPrismaClient_pooled _ _ _ Hget) in Hcall.
    injection Hcall as <- <-. done. }
  destruct o as [c|e].
  - destruct (decide (JsMap.size (prismaClients s) + 1 ≤ maxConnections s)) as [Hroom|Hfull].
    + destruct (getPrismaClient_fresh_below _ _ _ _ Hget Hroom Hcall) as (Hp & Hm & Hc).
      split; [|split; [done | congruence]]. split.
      * rewrite Hp, Hm. unfold JsMap.size in *. rewrite length_app. simpl. lia.
      * rewrite Hp. unfold JsMap.keys in *. rewrite fmap_app, Forall_app.
        split; [done|]. by constructor.
    + destruct (prismaClients s) as [|[k c0] p] eqn:Hpool.
      { unfold JsMap.size in Hfull. simpl in Hfull. lia. }
      unfold JsMap.keys in Hkeys. simpl in Hkeys.
      apply Forall_cons in Hkeys as [Hk Hkeys].
      rewrite <- Hpool in Hget.
      assert (Hover : JsMap.size (prismaClients s) + 1 > maxConnections s)
        by (rewrite Hpool; lia).
      destruct (getPrismaClient_fresh_full _ _ _ _ _ _ _ Hget Hpool Hk Hover Hcall)
        as (Hp & Hm & Hc & _).
      split; [|split; [done | by rewrite Hc, Hcf]]. split.
      * rewrite Hp, Hm. unfold JsMap.size in *. rewrite length_app. simpl in *. lia.
      * rewrite Hp. unfold JsMap.keys. rewrite fmap_app, Forall_app.
        split; [done|]. by constructor.
  - apply getPrismaClient_throws in Hcall
      as (Hm & [(Hp & _ & Hc & _) | (c & _ & _ & _ & _ & _ & Hhead & _)]).
    + split; [|split; [done | congruence]]. split; [rewrite Hp, Hm | rewrite Hp]; done.
    + by rewrite Hcf in Hhead.
Qed.

(** Calls one after the other, each coming back, returned or failed,
    before the next one starts. *)
Lemma run_calls_getPrismaClient_within_limit (ids : list string) (s : State) :
  1 ≤ maxConnections s → Forall (λ t, t ≠ EmptyString) ids → closeFaults s = [] →
  within_limit s →
  within_limit (run_calls s (CallGetPrismaClient <$> ids)) ∧
  maxConnections (run_calls s (CallGetPrismaClient <$> ids)) = maxConnections s.
Proof.
  revert s. induction ids as [|t ids IH]; intros s Hmax Hids Hcf Hlim; [done|].
  apply Forall_cons in Hids as [Ht Hids].
  destruct (getPrismaClient_within_limit t s Hmax Ht Hcf Hlim) as (Hlim1 & Hmax1 & Hcf1).
  unfold run_calls in *. rewrite fmap_cons. cbn [foldl run_call].
  destruct (IH (after (getPrismaClient t) s)) as [Hlim2 Hmax2]; [lia | done..|].
  split; [done | congruence].
Qed.

(** Calls for distinct tenants that are not pooled, while there is room:
    the entries are appended in the order of the calls. *)
Lemma mapM_getPrismaClient_fill (ids : list string) (s : State) cs s' :
  NoDup ids →
  Forall (λ t, JsMap.get t (prismaClients s) = None) ids →
  JsMap.size (prismaClients s) + Z.of_nat (length ids) ≤ maxConnections s →
  mapM getPrismaClient ids s = (Returns cs, s') →
  prismaClients s' = prismaClients s ++ zip ids cs ∧
  length cs = length ids ∧
  maxConnections s' = maxConnections s.
Proof.
  revert s cs. induction ids as [|t ids IH]; intros s cs Hnd Hfresh Hsize.
  - intros [= <- <-]. by rewrite app_nil_r.
  - intros H. apply mapM_cons_returns in H as (c & cs' & s1 & Hcall & Hrest & ->).
    apply NoDup_cons in Hnd as [Ht Hnd].
    apply Forall_cons in Hfresh as [Hfresh_t Hfresh].
    simpl in Hsize.
    destruct (getPrismaClient_fresh_below t s c s1) as (Hp & Hm & _); [done | lia | done |].
    destruct (IH s1 cs') as (Hp' & Hlen & Hm'); [done | | | done |].
    + rewrite Forall_forall in Hfresh |- *. intros t' Ht'.
      rewrite Hp. apply get_None_keys. unfold JsMap.keys.
      rewrite fmap_app, not_elem_of_app. split.
      * apply get_None_keys. by apply Hfresh.
      * simpl. rewrite list_elem_of_singleton. intros ->. done.
    + rewrite Hp, Hm. unfold JsMap.size in *. rewrite length_app. simpl. lia.
    + rewrite Hp', Hp, <- app_assoc. simpl. split; [done|]. split; [lia | congruence].
Qed.

(** C1, as the code has it. The maximum in force is [N], at least one (a
    configured 0 or none stands for 10), the pool starts empty, the tenant
    ids are not empty, the calls are made one after the other, each coming
    back before the next one starts, and no [$disconnect] is rejected. Then
    whenever a call has come back, returned or failed, the size of the pool
    is at most [N], after calls for any tenant ids. And eviction is first
    in, first out: after calls that return for distinct tenants [t1..tN]
    (here [t1 :: mid]), then any number of further calls for [t1], which the
    pool serves, and then a call for one more tenant [t(N+1)] (here [tl]),
    the pool holds exactly [t2..t(N+1)] in that order and the client handed
    out for [t1] is closed: having been used since does not keep an entry.
    The last call did things in this order: dial the new client, set it in
    the map, where it is the [N+1]st entry, disconnect the client of [t1],
    delete [t1]. *)
Theorem C1_pool_limit_fifo (N : Z) (s : State) :
  1 ≤ N → maxConnections s = N → prismaClients s = [] → closeFaults s = [] →
  (∀ ids : list string,
     Forall (λ t, t ≠ EmptyString) ids →
     JsMap.size (prismaClients (run_calls s (CallGetPrismaClient <$> ids))) ≤ N) ∧
  (∀ (t1 : string) (mid : list string) (tl : string) (n : nat) cs s',
     NoDup (t1 :: mid ++ [tl]) →
     Forall (λ t, t ≠ EmptyString) (t1 :: mid ++ [tl]) →
     Z.of_nat (length (t1 :: mid ++ [tl])) = N + 1 →
     mapM getPrismaClient ((t1 :: mid) ++ replicate n t1 ++ [tl]) s = (Returns cs, s') →
     JsMap.keys (prismaClients s') = mid ++ [tl] ∧
     ∃ c1 cl tr,
       head cs = Some c1 ∧ last cs = Some cl ∧
       closed c1 s' ∧
       trace s' = tr ++ [Connect cl; ClientsSet tl cl; Disconnect c1; ClientsDelete t1]).
Proof.
  intros HN Hmax Hempty Hcf. split.
  { intros ids Hids.
    destruct (run_calls_getPrismaClient_within_limit ids s) as [[Hsize _] Hm];
      [lia | done | done | | ].
    - split; rewrite Hempty; [unfold JsMap.size; simpl; lia | constructor].
    - rewrite Hm in Hsize. by rewrite <- Hmax. }
  intros t1 mid tl n cs s' Hnd Hne Hlen Hrun.
  rewrite app_comm_cons in Hnd, Hne, Hlen.
  rewrite length_app in Hlen. simpl in Hlen.
  apply NoDup_app in Hnd as (Hnd & Hlast & _).
  apply Forall_app in Hne as [Hne _]. apply Forall_cons in Hne as [Ht1 _].
  apply mapM_app_returns in Hrun as (cs1 & cs2 & s1 & Hfill & Hrun & ->).
  apply mapM_app_returns in Hrun as (cs3 & cs4 & s2 & Hhits & Hcall & ->).
  apply mapM_cons_returns in Hcall as (cl & cs5 & s3 & Hcall & Hnil & ->).
  injection Hnil as <- <-.
  (* the pool is filled, in the order of the calls *)
  destruct (mapM_getPrismaClient_fill (t1 :: mid) s cs1 s1) as (Hpool & Hlen1 & Hmax1);
    [done | | | done |].
  { rewrite Hempty. by apply Forall_true. }
  { rewrite Hempty. unfold JsMap.size. simpl in *. lia. }
  rewrite Hempty in Hpool. destruct cs1 as [|c1 cs1]; [done|].
  simpl in Hpool, Hlen1.
  (* the calls for [t1] are served from the pool *)
  assert (Hget : JsMap.get t1 (prismaClients s1) = Some c1).
  { rewrite Hpool. simpl. by rewrite String.eqb_refl. }
  rewrite (mapM_getPrismaClient_pooled t1 c1 s1 n Hget) in Hhits.
  injection Hhits as <- <-.
  (* the last call evicts [t1] *)
  assert (Hkeys : JsMap.keys (prismaClients s1) = t1 :: mid).
  { rewrite Hpool. unfold JsMap.keys. simpl. f_equal. apply fst_zip. lia. }
  destruct (getPrismaClient_fresh_full tl s1 cl s3 t1 c1 (zip mid cs1))
    as (Hpool2 & _ & _ & Hclosed & tr & Htrace); [ | done | done | | done | ].
  { apply get_None_keys. rewrite Hkeys. intros Hin.
    apply (Hlast tl); [done | by apply list_elem_of_singleton]. }
  { rewrite Hpool. unfold JsMap.size. simpl. rewrite length_zip. lia. }
  split.
  - rewrite Hpool2. unfold JsMap.keys. rewrite fmap_app. simpl.
    f_equal. apply fst_zip. lia.
  - exists c1, cl, tr. split; [done|]. split; [|done].
    rewrite !app_assoc. apply last_snoc.
Qed.

Lemma C1_witness :
  let ca := {| ref := 0; datasource := "postgresql://u:p@h:5432/tenant_a" |} in
  let cb := {| ref := 1; datasource := "postgresql://u:p@h:5432/tenant_b" |} in
  let cc := {| ref := 2; datasource := "postgresql://u:p@h:5432/tenant_c" |} in
  let s' := after (mapM getPrismaClient ["a"; "b"; "a"; "a"; "c"]) example_state in
  JsMap.size (prismaClients
    (run_calls example_state
       (CallGetPrismaClient <$> ["a"; "d"; "b"; "a"; "c"; "x"]))) ≤ 2 ∧
  JsMap.keys (prismaClients s') = ["b"; "c"] ∧
  ∃ c1 cl tr,
    head [ca; cb; ca; ca; cc] = Some c1 ∧ last [ca; cb; ca; ca; cc] = Some cl ∧
    closed c1 s' ∧
    trace s' = tr ++ [Connect cl; ClientsSet "c" cl; Disconnect c1; ClientsDelete "a"].
Proof.
  intros ca cb cc s'.
  destruct (C1_pool_limit_fifo 2 example_state) as [Hbound Hfifo].
  - lia.
  - reflexivity.
  - reflexivity.
  - reflexivity.
  - split.
    + apply Hbound. repeat constructor; discriminate.
    + apply (Hfifo "a" ["b"] "c" 2%nat [ca; cb; ca; ca; cc] s').
      * compute_done.
      * repeat constructor; discriminate.
      * reflexivity.
      * vm_compute. reflexivity.
Defined.

(** C1, as stated, fails: the new entry is admitted first and the oldest
    one evicted after. With a maximum of two and [a], [b] pooled, the call
    for [c] sets its client in the map while [a] is still there, its client
    still connected: the pool holds three entries when [evictOldestClient]
    starts, and until its [await client.$disconnect()] has resumed. *)
Lemma C1_counterexample :
  let ca := {| ref := 0; datasource := "postgresql://u:p@h:5432/tenant_a" |} in
  let cb := {| ref := 1; datasource := "postgresql://u:p@h:5432/tenant_b" |} in
  let cc := {| ref := 2; datasource := "postgresql://u:p@h:5432/tenant_c" |} in
  let s2 := after (mapM getPrismaClient ["a"; "b"]) example_state in
  let s_dialled := after (getPrismaClient_dial "c") s2 in
  let s_set := after (prismaClients_set "c" cc) s_dialled in
  maxConnections s2 = 2 ∧
  prismaClients s2 = [("a", ca); ("b", cb)] ∧
  result (getPrismaClient_dial "c") s2 = Returns (inr cc) ∧
  prismaClients s_set = [("a", ca); ("b", cb); ("c", cc)] ∧
  JsMap.size (prismaClients s_set) = 3 ∧
  ¬ closed ca s_set ∧
  after enforce_limit s_set = after (getPrismaClient "c") s2 ∧
  trace (after (getPrismaClient "c") s2) =
    trace s2 ++ [FindUnique "c"; FindUnique "c"; CacheSet "c"; SetTimeout 100 "c";
                 Connect cc; ClientsSet "c" cc; Disconnect ca; ClientsDelete "a"].
Proof.
  split_all; try (vm_compute; reflexivity).
  unfold closed. intros H. apply H. vm_compute. reflexivity.
Qed.

(** ** The tenant cache and its timers *)

Lemma timeout_delay_in_range (ms : Z) :
  1 ≤ ms ≤ 2147483647 → timeout_delay ms = ms.
Proof.
  intros [Hlo Hhi]. unfold timeout_delay.
  destruct (Z.ltb_spec ms 1); [lia|]. destruct (Z.gtb_spec ms 2147483647); [lia | done].
Qed.

Lemma timeout_delay_out_of_range (ms : Z) :
  ms < 1 ∨ 2147483647 < ms → timeout_delay ms = 1.
Proof.
  intros H. unfold timeout_delay.
  destruct (Z.ltb_spec ms 1); [done|]. destruct (Z.gtb_spec ms 2147483647); [done | lia].
Qed.

Lemma foldl_fire_cache (due : list (Z * string)) (s : State) :
  tenantCache (foldl fire s due) =
  foldl (λ m (timer : Z * string), delete timer.2 m) (tenantCache s) due.
Proof. revert s. induction due as [|timer due IH]; intros s; simpl; [done|]. by rewrite IH. Qed.

Lemma foldl_delete_lookup (due : list (Z * string)) (m : gmap string TenantContext)
    (k : string) :
  foldl (λ m (timer : Z * string), delete timer.2 m) m due !! k =
  if decide (k ∈ due.*2) then None else m !! k.
Proof.
  revert m. induction due as [|timer due IH]; intros m; cbn [foldl].
  - rewrite fmap_nil. by rewrite decide_False by apply not_elem_of_nil.
  - rewrite IH, fmap_cons. destruct (decide (k ∈ due.*2)) as [Hin|Hnotin].
    + by rewrite decide_True by (by apply list_elem_of_further).
    + destruct (decide (k = timer.2)) as [->|Hne].
      * rewrite decide_True by apply list_elem_of_here. apply lookup_delete_eq.
      * rewrite decide_False by (rewrite not_elem_of_cons; done).
        by apply lookup_delete_ne.
Qed.

(** A callback that is due deletes whatever entry its tenant id has. *)
Lemma advance_deletes (t due : Z) (tenantId : string) (s : State) :
  (due, tenantId) ∈ timers s → due ≤ t →
  tenantCache (advance t s) !! tenantId = None.
Proof.
  intros Hin Hdue. unfold advance. rewrite foldl_fire_cache, foldl_delete_lookup.
  rewrite decide_True; [done|].
  apply list_elem_of_fmap. exists (due, tenantId). split; [done|].
  apply list_elem_of_filter. done.
Qed.

(** C3, as the code has it. Caching a context sets the entry, replacing
    the one the tenant id had, and schedules one more callback; the
    callbacks already pending stay as they are. The callback is due after
    the delay [setTimeout] makes of [cacheTtl]: at [now + cacheTtl] for a
    [cacheTtl] from 1 to 2^31 - 1, and after 1 ms for any other.
    [clearCache] removes entries and leaves every pending callback in place.
    A callback that is due deletes whatever entry its tenant id has then. *)
Theorem C3_cache_put_schedules_and_nothing_cancels
    (tenantId : string) (context : TenantContext) (s : State) :
  let s1 := after (cache_put tenantId context) s in
  tenantCache s1 = <[tenantId := context]> (tenantCache s) ∧
  timers s1 = timers s ++ [(now s + timeout_delay (cacheTtl s), tenantId)] ∧
  (1 ≤ cacheTtl s ≤ 2147483647 → timeout_delay (cacheTtl s) = cacheTtl s) ∧
  (cacheTtl s < 1 ∨ 2147483647 < cacheTtl s → timeout_delay (cacheTtl s) = 1) ∧
  (∀ o, timers (after (clearCache o) s) = timers s) ∧
  tenantCache (after (clearCache (Some tenantId)) s) !! tenantId = None ∧
  (∀ t due, (due, tenantId) ∈ timers s → due ≤ t →
            tenantCache (advance t s) !! tenantId = None).
Proof.
  split_all.
  - reflexivity.
  - reflexivity.
  - apply timeout_delay_in_range.
  - apply timeout_delay_out_of_range.
  - intros [o|]; unfold after; run; [destruct (truthy o)|]; reflexivity.
  - unfold after. run. destruct (truthy tenantId); run.
    + apply lookup_delete_eq.
    + apply lookup_empty.
  - intros t due. apply advance_deletes.
Qed.

(** C3, as stated, fails: no callback is ever cancelled, and the stale one
    evicts the newer entry. The context of [x] is cached at time 0 (callback
    due at 100); at 50 the entry is invalidated and the callback is still
    pending; [x] is cached again (its own callback due at 150); at 100 the
    first callback runs and the new entry is gone, 50 ms before its time. *)
Lemma C3_counterexample :
  let s1 := after (getTenantContext "x") example_state in
  let s2 := after (clearCache (Some "x")) (advance 50 s1) in
  let s3 := after (getTenantContext "x") s2 in
  let s4 := advance 100 s3 in
  timers s1 = [(100, "x")] ∧
  tenantCache s2 !! "x" = None ∧
  timers s2 = [(100, "x")] ∧
  is_Some (tenantCache s3 !! "x") ∧
  timers s3 = [(100, "x"); (150, "x")] ∧
  now s4 = 100 ∧
  tenantCache s4 !! "x" = None ∧
  timers s4 = [(150, "x")].
Proof.
  split_all; try (vm_compute; reflexivity).
  eexists. vm_compute. reflexivity.
Qed.

(** ** Provisioning *)

(** Membership of a fault in the first entries of a script. *)
Ltac faults_solver :=
  simpl in *;
  repeat match goal with
         | H : _ ∧ _ |- _ => destruct H
         | H : is_Some None |- _ => by destruct H
         | H : Some true ≠ Some true |- _ => by destruct H
         | H : true ∉ true :: _ |- _ => by (exfalso; apply H; apply list_elem_of_here)
         | H : true ∉ _ :: true :: _ |- _ =>
             by (exfalso; apply H; apply list_elem_of_further, list_elem_of_here)
         | H : is_Some (Some _) → _ |- _ => specialize (H (mk_is_Some _ _ eq_refl))
         | |- _ ∧ _ => split
         | |- is_Some (Some _) => by eexists
         | |- true ∉ _ =>
             rewrite ?not_elem_of_cons; repeat split; try discriminate;
             apply not_elem_of_nil
         | |- _ → _ => intro
         end;
  try done; try discriminate; try congruence.

(** [createTenantDatabase] never throws, and when exactly it succeeds. *)
Lemma createTenantDatabase_result (tenantId : string) (s : State) :
  ∃ b, result (createTenantDatabase tenantId) s = Returns b ∧
       (b = true ↔ ((true ∉ take 2 (faults s)) ∧ head (closeFaults s) ≠ Some true ∧
                    (("tenant_" +:+ tenantId) ∉ databases s) ∧
                    is_Some (tenants s !! tenantId))).
Proof.
  unfold result.
  explore; cbn [fst snd]; (eexists; split; [reflexivity|]); split; intros; faults_solver.
Qed.

Lemma dropTenantDatabase_result (tenantId : string) (s : State) :
  ∃ b, result (dropTenantDatabase tenantId) s = Returns b ∧
       (b = true ↔ ((true ∉ take 2 (faults s)) ∧
                    (is_Some (JsMap.get tenantId (prismaClients s)) →
                     head (closeFaults s) ≠ Some true))).
Proof.
  unfold result.
  explore; cbn [fst snd]; (eexists; split; [reflexivity|]); split; intros; faults_solver.
Qed.

(** C4. [dropTenantDatabase] goes through its steps in one order: close
    the pooled client of the tenant, if there is one, and take it out of the
    map; terminate the other sessions on the tenant's database; drop the
    database; delete the cached context. How far it gets is decided by the
    backend alone. If the close is rejected, nothing else is attempted, the
    client stays in the map and the call returns [false]. If terminating the
    sessions fails, the database is not dropped and the cached context is
    kept; if the drop fails, the cached context is kept; in both cases the
    call returns [false]. If none of them fails, all four steps are done, in
    this order, and the call returns [true]. *)
Theorem C4_drop_order (tenantId : string) (s : State) :
  let db := "tenant_" +:+ tenantId in
  let pooled := JsMap.get tenantId (prismaClients s) in
  let close :=
    match pooled with
    | Some c => [Disconnect c; ClientsDelete tenantId]
    | None => []
    end in
  let s' := after (dropTenantDatabase tenantId) s in
  (∀ c, pooled = Some c → head (closeFaults s) = Some true →
     result (dropTenantDatabase tenantId) s = Returns false ∧
     trace s' = trace s ++ [Disconnect c] ∧
     prismaClients s' = prismaClients s ∧ connected s' = connected s ∧
     databases s' = databases s ∧ tenantCache s' = tenantCache s) ∧
  (pooled = None ∨ head (closeFaults s) ≠ Some true →
     prismaClients s' = JsMap.delete tenantId (prismaClients s) ∧
     (∀ c, pooled = Some c → closed c s') ∧
     (head (faults s) = Some true →
        result (dropTenantDatabase tenantId) s = Returns false ∧
        trace s' = trace s ++ close ++ [ExecuteRaw (TerminateBackends db)] ∧
        databases s' = databases s ∧ tenantCache s' = tenantCache s) ∧
     (head (faults s) ≠ Some true → faults s !! 1%nat = Some true →
        result (dropTenantDatabase tenantId) s = Returns false ∧
        trace s' = trace s ++ close ++
          [ExecuteRaw (TerminateBackends db); ExecuteRaw (DropDatabaseIfExists db)] ∧
        databases s' = databases s ∧ tenantCache s' = tenantCache s) ∧
     (true ∉ take 2 (faults s) →
        result (dropTenantDatabase tenantId) s = Returns true ∧
        trace s' = trace s ++ close ++
          [ExecuteRaw (TerminateBackends db); ExecuteRaw (DropDatabaseIfExists db);
           CacheDelete tenantId] ∧
        databases s' = databases s ∖ {[db]} ∧
        tenantCache s' = delete tenantId (tenantCache s))).
Proof.
  intros db pooled close s'. subst db pooled close s'. unfold after, result, closed.
  pose proof (delete_absent (V:=PrismaClient) tenantId) as Hdel.
  explore; cbn [fst snd]; run; rewrite <- ?app_assoc; simpl;
    (split;
     [ intros c' Hc Hhead; first [discriminate | congruence | (injection Hc as <-; done)]
     | intros Hclose; first
         [ by destruct Hclose as [|Hclose]; [discriminate | destruct Hclose]
         | split_all;
           first [ done
                 | by rewrite Hdel
                 | by (intros c' [= <-]; apply not_elem_of_difference; right;
                       apply elem_of_singleton)
                 | by (intros; faults_solver) ] ] ]).
Qed.

(** All four steps, on the example: [a] is pooled and the backend has no
    failure in store. *)
Lemma C4_witness :
  let ca := {| ref := 0; datasource := "postgresql://u:p@h:5432/tenant_a" |} in
  let s := after (getPrismaClient "a") example_state in
  let s' := after (dropTenantDatabase "a") s in
  result (dropTenantDatabase "a") s = Returns true ∧
  trace s' = trace s ++ [Disconnect ca; ClientsDelete "a"] ++
    [ExecuteRaw (TerminateBackends "tenant_a");
     ExecuteRaw (DropDatabaseIfExists "tenant_a"); CacheDelete "a"] ∧
  databases s' = databases s ∖ {[ "tenant_a" ]} ∧
  tenantCache s' = delete "a" (tenantCache s).
Proof.
  intros ca s s'.
  destruct (C4_drop_order "a" s) as [_ H].
  destruct H as (_ & _ & _ & _ & H).
  - right. vm_compute. discriminate.
  - apply H. vm_compute. apply not_elem_of_nil.
Defined.

(** C5, as the code has it. The provisioning calls never throw: a command
    that fails is caught, logged, and the call returns [false].
    [createTenantDatabase] returns [true] exactly when neither of its two
    commands hits a backend failure, the close of the client it made is not
    rejected, the database does not exist yet and the tenant has a row to
    update; [dropTenantDatabase] returns [true] exactly when neither of its
    two commands fails and the close of the pooled client, if there is one,
    is not rejected. Backup and restore send no command at all: they return
    [true] and change nothing. *)
Theorem C5_provisioning_reports_false (tenantId backupPath : string) (s : State) :
  let db := "tenant_" +:+ tenantId in
  (∃ b, result (createTenantDatabase tenantId) s = Returns b ∧
        (b = true ↔ ((true ∉ take 2 (faults s)) ∧ head (closeFaults s) ≠ Some true ∧
                     (db ∉ databases s) ∧ is_Some (tenants s !! tenantId)))) ∧
  (∃ b, result (dropTenantDatabase tenantId) s = Returns b ∧
        (b = true ↔ ((true ∉ take 2 (faults s)) ∧
                     (is_Some (JsMap.get tenantId (prismaClients s)) →
                      head (closeFaults s) ≠ Some true)))) ∧
  backupTenantDatabase tenantId backupPath s = (Returns true, s) ∧
  restoreTenantDatabase tenantId backupPath s = (Returns true, s).
Proof.
  intros db. subst db. split_all; [| |reflexivity|reflexivity].
  - apply createTenantDatabase_result.
  - apply dropTenantDatabase_result.
Qed.

(** C5, as stated, fails: no error reaches the caller. The database of
    [a] exists already, or the backend is down: [createTenantDatabase] does
    not throw, it returns [false]; so does [dropTenantDatabase] with the
    backend down. *)
Lemma C5_counterexample :
  let s := after (createTenantDatabase "a") example_state in
  "tenant_a" ∈ databases s ∧
  result (createTenantDatabase "a") s = Returns false ∧
  result (createTenantDatabase "b") example_state_down = Returns false ∧
  result (dropTenantDatabase "b") example_state_down = Returns false ∧
  (∀ e, result (createTenantDatabase "a") s ≠ Throws e) ∧
  (∀ e, result (createTenantDatabase "b") example_state_down ≠ Throws e) ∧
  (∀ e, result (dropTenantDatabase "b") example_state_down ≠ Throws e).
Proof.
  split_all; try (vm_compute; reflexivity); intros e; vm_compute; discriminate.
Qed.

(** C6. [createTenantDatabase] never touches the pool. It returns [true]
    or [false]; when it returns [false] the tenant table is what it was; and
    when it returns [true] the database was not there before and is there
    now, and the update of the tenant's row was the last thing done, after
    [CREATE DATABASE] and after closing the client built for the new
    database. It does return [true] when the database does not exist yet,
    the tenant has a row, neither command fails and the close is not
    rejected. *)
Theorem C6_create_updates_row_last (tenantId : string) (s : State) :
  let db := "tenant_" +:+ tenantId in
  let url := replace "{tenantId}" tenantId (databaseUrlTemplate s) in
  let s' := after (createTenantDatabase tenantId) s in
  prismaClients s' = prismaClients s ∧
  ((result (createTenantDatabase tenantId) s = Returns false ∧
    tenants s' = tenants s) ∨
   (result (createTenantDatabase tenantId) s = Returns true ∧
    (db ∉ databases s) ∧ databases s' = {[db]} ∪ databases s ∧
    trace s' = trace s ++
      [ExecuteRaw (CreateDatabase db);
       Disconnect {| ref := nextRef s; datasource := url |};
       TenantUpdate tenantId {[ "databaseUrl" := url ]}])) ∧
  (true ∉ take 2 (faults s) → head (closeFaults s) ≠ Some true →
   db ∉ databases s → is_Some (tenants s !! tenantId) →
   result (createTenantDatabase tenantId) s = Returns true).
Proof.
  intros db url s'. subst db url s'. split_all.
  - unfold after. explore; cbn [fst snd]; run; done.
  - unfold after, result.
    explore; cbn [fst snd]; run; rewrite <- ?app_assoc; simpl;
      first [by left | by right].
  - intros Hf Hc Hdb Hrow.
    destruct (createTenantDatabase_result tenantId s) as (b & -> & Hb).
    f_equal. by apply Hb.
Qed.

Lemma C6_witness :
  let s := example_state in
  let s' := after (createTenantDatabase "a") s in
  result (createTenantDatabase "a") s = Returns true ∧
  trace s' = [ExecuteRaw (CreateDatabase "tenant_a");
              Disconnect {| ref := 0; datasource := "postgresql://u:p@h:5432/tenant_a" |};
              TenantUpdate "a" {[ "databaseUrl" := "postgresql://u:p@h:5432/tenant_a" ]}].
Proof.
  intros s s'.
  destruct (C6_create_updates_row_last "a" s) as (_ & _ & H).
  split.
  - apply H.
    + vm_compute. apply not_elem_of_nil.
    + vm_compute. discriminate.
    + vm_compute. intros Hin. discriminate Hin.
    + vm_compute. by eexists.
  - vm_compute. reflexivity.
Defined.

(** C10. When [createTenantDatabase] returns [true], the tenant had a row,
    and the [config] of that row is now the object with the single key
    [databaseUrl], bound to the url derived from the template: whatever
    other keys the config had are gone. The other columns of the row and
    the other rows are what they were. *)
Theorem C10_create_overwrites_config (tenantId : string) (s : State) s' :
  createTenantDatabase tenantId s = (Returns true, s') →
  let url := replace "{tenantId}" tenantId (databaseUrlTemplate s) in
  ∃ r r',
    tenants s !! tenantId = Some r ∧
    tenants s' !! tenantId = Some r' ∧
    tenant_config r' = Some {[ "databaseUrl" := url ]} ∧
    (∀ cfg key, tenant_config r' = Some cfg → key ≠ "databaseUrl" → cfg !! key = None) ∧
    tenant_id r' = tenant_id r ∧ tenant_name r' = tenant_name r ∧
    tenant_isActive r' = tenant_isActive r ∧
    (∀ t, t ≠ tenantId → tenants s' !! t = tenants s !! t).
Proof.
  explore; intros H; inversion H; subst; clear H; run;
    (eexists _, _; split; [reflexivity|]; split; [apply lookup_insert_eq|];
     cbn [tenant_config tenant_id tenant_name tenant_isActive];
     split_all;
     first [ done
           | intros cfg key [= <-] Hkey; by apply lookup_singleton_ne
           | intros t' Ht; by apply lookup_insert_ne ]).
Qed.

Lemma C10_witness :
  let s' := after (createTenantDatabase "e") example_state in
  let url := replace "{tenantId}" "e" (databaseUrlTemplate example_state) in
  ∃ r r',
    tenants example_state !! "e" = Some r ∧
    tenants s' !! "e" = Some r' ∧
    tenant_config r' = Some {[ "databaseUrl" := url ]} ∧
    (∀ cfg key, tenant_config r' = Some cfg → key ≠ "databaseUrl" → cfg !! key = None) ∧
    tenant_id r' = tenant_id r ∧ tenant_name r' = tenant_name r ∧
    tenant_isActive r' = tenant_isActive r ∧
    (∀ t, t ≠ "e" → tenants s' !! t = tenants example_state !! t).
Proof.
  intros s'.
  apply (C10_create_overwrites_config "e" example_state s').
  vm_compute. reflexivity.
Defined.

(** The config of [e] before and after. *)
Example create_drops_other_keys :
  (tenants example_state !! "e") ≫= tenant_config =
    Some (<["plan" := "gold"]> {["region" := "eu"]}) ∧
  (tenants (after (createTenantDatabase "e") example_state) !! "e") ≫= tenant_config =
    Some {[ "databaseUrl" := "postgresql://u:p@h:5432/tenant_e" ]}.
Proof. split; vm_compute; reflexivity. Qed.

(** A tenant id with the patterns that [String.prototype.replace] expands:
    [$$] gives one dollar sign, [$&] the pattern that was matched. *)
Example create_with_dollar_signs :
  let rows := <["x$$y" := row "x$$y" true]> (<["a$&b" := row "a$&b" true]> ∅) in
  let s := constructor example_config rows ∅ [] [] in
  (tenants (after (createTenantDatabase "x$$y") s) !! "x$$y") ≫= tenant_config =
    Some {[ "databaseUrl" := "postgresql://u:p@h:5432/tenant_x$y" ]} ∧
  (tenants (after (createTenantDatabase "a$&b") s) !! "a$&b") ≫= tenant_config =
    Some {[ "databaseUrl" := "postgresql://u:p@h:5432/tenant_a{tenantId}b" ]}.
Proof. split; vm_compute; reflexivity. Qed.

(** ** Shutdown *)

Lemma disconnect_run (c : PrismaClient) (s : State) :
  disconnect c s =
  match closeFaults s with
  | [] =>
      (Returns tt, set_connected (connected s ∖ {[ref c]})
                     (set_trace (trace s ++ [Disconnect c]) s))
  | false :: cfs =>
      (Returns tt, set_connected (connected s ∖ {[ref c]})
                     (set_closeFaults cfs (set_trace (trace s ++ [Disconnect c]) s)))
  | true :: cfs =>
      (Throws (Error "disconnect failed"),
       set_closeFaults cfs (set_trace (trace s ++ [Disconnect c]) s))
  end.
Proof. run. by destruct (closeFaults s) as [|[] cfs]. Qed.

Lemma Promise_all_cons (p : M unit) (ps : list (M unit)) (s : State) :
  Promise_all (p :: ps) s =
  match p s with
  | (Returns _, s1) => Promise_all ps s1
  | (Throws e, s1) => (Throws e, (Promise_all ps s1).2)
  end.
Proof. reflexivity. Qed.

(** The closes of [disconnectAll]: every client is asked to disconnect, in
    order, each consuming one entry of the script; the ones that are not
    rejected are closed; the whole is rejected when one of them is. *)
Lemma Promise_all_disconnect (clients : list PrismaClient) (s : State) :
  ∃ o s1, Promise_all (disconnect <$> clients) s = (o, s1) ∧
    trace s1 = trace s ++ (Disconnect <$> clients) ∧
    prismaClients s1 = prismaClients s ∧
    masterConnected s1 = masterConnected s ∧
    maxConnections s1 = maxConnections s ∧ nextRef s1 = nextRef s ∧
    closeFaults s1 = drop (length clients) (closeFaults s) ∧
    (∀ n, n ∈ connected s1 → n ∈ connected s) ∧
    (true ∉ take (length clients) (closeFaults s) →
     o = Returns tt ∧
     ∀ n, n ∈ connected s1 ↔ n ∈ connected s ∧ n ∉ ref <$> clients) ∧
    (true ∈ take (length clients) (closeFaults s) → ∃ e, o = Throws e).
Proof.
  revert s. induction clients as [|c clients IH]; intros s.
  - exists (Returns tt), s. split; [done|]. rewrite app_nil_r.
    split_all; try done.
    + intros _. split; [done|]. intros n. rewrite fmap_nil. split; [|tauto].
      intros ?. split; [done | apply not_elem_of_nil].
    + simpl. by intros ?%elem_of_nil.
  - rewrite fmap_cons, Promise_all_cons, disconnect_run.
    destruct (closeFaults s) as [|[] cfs] eqn:Hcf.
    + destruct (IH (set_connected (connected s ∖ {[ref c]})
                      (set_trace (trace s ++ [Disconnect c]) s)))
        as (o & s1 & -> & Htrace & Hpool & Hmaster & Hmax & Hnext & Hcf1 & Hsub & Hok & Hko).
      cbn [trace connected prismaClients masterConnected maxConnections nextRef
           closeFaults set_connected set_trace] in *.
      rewrite Hcf in *. rewrite drop_nil in Hcf1. rewrite take_nil in Hok, Hko.
      exists o, s1. split; [done|].
      split_all; try done.
      * by rewrite Htrace, <- app_assoc.
      * intros n Hn%Hsub. by apply elem_of_difference in Hn as [? _].
      * intros _. destruct Hok as [-> Hconn]; [apply not_elem_of_nil|].
        split; [done|]. intros n.
        rewrite Hconn, fmap_cons, not_elem_of_cons, elem_of_difference,
          elem_of_singleton. tauto.
    + destruct (IH (set_closeFaults cfs (set_trace (trace s ++ [Disconnect c]) s)))
        as (o & s1 & Hrun & Htrace & Hpool & Hmaster & Hmax & Hnext & Hcf1 & Hsub & _).
      cbn [trace connected prismaClients masterConnected maxConnections nextRef
           closeFaults set_closeFaults set_trace] in *.
      rewrite Hrun. exists (Throws (Error "disconnect failed")), s1.
      split; [done|]. split_all; try done.
      * by rewrite Htrace, <- app_assoc.
      * simpl. intros Hn. destruct Hn. apply list_elem_of_here.
      * intros _. by eexists.
    + destruct (IH (set_connected (connected s ∖ {[ref c]})
                      (set_closeFaults cfs (set_trace (trace s ++ [Disconnect c]) s))))
        as (o & s1 & -> & Htrace & Hpool & Hmaster & Hmax & Hnext & Hcf1 & Hsub & Hok & Hko).
      cbn [trace connected prismaClients masterConnected maxConnections nextRef
           closeFaults set_connected set_closeFaults set_trace] in *.
      exists o, s1. split; [done|].
      split_all; try done.
      * by rewrite Htrace, <- app_assoc.
      * intros n Hn%Hsub. by apply elem_of_difference in Hn as [? _].
      * cbn [length take]. intros [_ Hn]%not_elem_of_cons.
        destruct (Hok Hn) as [-> Hconn].
        split; [done|]. intros n.
        rewrite Hconn, fmap_cons, not_elem_of_cons, elem_of_difference,
          elem_of_singleton. tauto.
      * cbn [length take]. intros [[=]|Hin]%elem_of_cons. by apply Hko.
Qed.




(** * More of the class *)

Ltac runx := repeat (progress (unfold checkTenantHealth, queryRaw_select1, getActiveTenants; run1)).
Ltac explorex := runx; repeat (split_match; runx).

(** ** Where the tenant id comes from *)

(** X1. [resolveTenantId] takes the route parameter if it is a non-empty
    string, else the query parameter if it is a non-empty string, else the
    [tenant_id] of the authenticated user if it is non-empty, else [null].
    It never answers with the empty string. *)
Theorem resolveTenantId_precedence (request : Request) :
  let param := params_tenantId request in
  let query := query_tenantId request in
  let user := request_user request ≫= user_tenant_id in
  (∀ t, param = Some t → t ≠ EmptyString → resolveTenantId request = Some t) ∧
  (∀ t, (param = None ∨ param = Some EmptyString) →
        query = Some (QueryString t) → t ≠ EmptyString →
        resolveTenantId request = Some t) ∧
  ((param = None ∨ param = Some EmptyString) →
   (∀ t, query = Some (QueryString t) → t = EmptyString) →
   resolveTenantId request =
     match user with
     | Some t => if truthy t then Some t else None
     | None => None
     end) ∧
  resolveTenantId request ≠ Some EmptyString.
Proof.
  destruct request as [param query user]. simpl.
  assert (Htruthy : ∀ t, t ≠ EmptyString → truthy t = true) by apply truthy_nonempty.
  assert (Hfalsy : ∀ t, truthy t = true → t ≠ EmptyString).
  { intros t Ht ->. done. }
  split_all.
  - intros t -> Ht. unfold resolveTenantId. simpl. by rewrite Htruthy.
  - intros t Hparam -> Ht. unfold resolveTenantId. simpl.
    destruct Hparam as [-> | ->]; simpl; by rewrite Htruthy.
  - intros Hparam Hquery. unfold resolveTenantId. simpl.
    destruct Hparam as [-> | ->]; simpl;
      destruct query as [[t|]|]; simpl; try rewrite (Hquery t eq_refl); simpl;
      by destruct user as [[[t'|]]|].
  - unfold resolveTenantId. simpl.
    destruct param as [t|]; [destruct (truthy t) eqn:Ht; [by intros [= ->]|]|];
      (destruct query as [[t1|]|]; [destruct (truthy t1) eqn:Ht1; [by intros [= ->]|]| |]);
      destruct user as [[[t2|]]|]; simpl; try done;
      destruct (truthy t2) eqn:Ht2; try done; by intros [= ->].
Qed.

(** ** A database url per tenant *)

Lemma append_length (a b : string) :
  String.length (a +:+ b) = (String.length a + String.length b)%nat.
Proof. induction a as [|c a IH]; simpl; [done | by rewrite IH]. Qed.

Lemma append_inj_l (a b post : string) : a +:+ post = b +:+ post → a = b.
Proof.
  revert b. induction a as [|c a IH]; intros [|c' b] H.
  - done.
  - apply (f_equal String.length) in H. rewrite !append_length in H.
    cbn [String.length] in H. lia.
  - apply (f_equal String.length) in H. rewrite !append_length in H.
    cbn [String.length] in H. lia.
  - simpl in H. injection H as -> H. f_equal. by apply IH.
Qed.

Lemma append_assoc (a b c : string) : (a +:+ b) +:+ c = a +:+ b +:+ c.
Proof.
  induction a as [|x a IH]; [done|].
  change (String x ((a +:+ b) +:+ c) = String x (a +:+ b +:+ c)). by rewrite IH.
Qed.

Lemma append_nil_r (a : string) : a +:+ EmptyString = a.
Proof.
  induction a as [|x a IH]; [done|].
  change (String x (a +:+ EmptyString) = String x a). by rewrite IH.
Qed.

Lemma substring_all (s : string) : String.substring 0 (String.length s) s = s.
Proof. induction s as [|c s IH]; simpl; [done | by rewrite IH]. Qed.

Lemma occurs_append (c : ascii) (a b : string) :
  occurs c (a +:+ b) = occurs c a || occurs c b.
Proof. induction a as [|c' a IH]; simpl; [done|]. by destruct (Ascii.eqb c' c). Qed.

(** A replacement without a dollar sign is put in as it is. *)
Lemma GetSubstitution_plain (matched before following rep : string) :
  occurs "$" rep = false → GetSubstitution matched before following rep = rep.
Proof.
  induction rep as [|c rep IH]; [done|]. simpl.
  destruct (Ascii.eqb c "$"); [done|]. intros H. by rewrite IH.
Qed.

Lemma replace_from_eq (pat rep before s : string) :
  replace_from pat rep before s =
  if String.prefix pat s
  then GetSubstitution pat before
         (String.substring (String.length pat)
            (String.length s - String.length pat)%nat s) rep +:+
       String.substring (String.length pat)
         (String.length s - String.length pat)%nat s
  else match s with
       | EmptyString => EmptyString
       | String c s' => String c (replace_from pat rep (before +:+ String c EmptyString) s')
       end.
Proof. by destruct s. Qed.

Lemma prefix_append (pat post : string) : String.prefix pat (pat +:+ post) = true.
Proof.
  induction pat as [|c pat IH]; simpl; [by destruct post|].
  by destruct (ascii_dec c c).
Qed.

Lemma substring_append (a b : string) (n : nat) :
  String.substring (String.length a) n (a +:+ b) = String.substring 0 n b.
Proof. induction a as [|c a IH]; simpl; [done | apply IH]. Qed.

(** The first occurrence of the pattern, with nothing before it where the
    pattern could start, is what gets replaced; a replacement without a
    dollar sign is put in as it is. *)
Lemma replace_from_first (pat' rep before pre post : string) (c : ascii) :
  occurs c pre = false → occurs "$" rep = false →
  replace_from (String c pat') rep before (pre +:+ String c pat' +:+ post) =
  pre +:+ rep +:+ post.
Proof.
  intros Hpre Hrep. revert before. induction pre as [|c' pre IH]; intros before.
  - change (EmptyString +:+ String c pat' +:+ post) with (String c pat' +:+ post).
    change (EmptyString +:+ rep +:+ post) with (rep +:+ post).
    rewrite replace_from_eq, prefix_append, substring_append, append_length.
    replace (String.length (String c pat') + String.length post
             - String.length (String c pat'))%nat with (String.length post) by lia.
    by rewrite substring_all, GetSubstitution_plain.
  - simpl in Hpre. destruct (Ascii.eqb_spec c' c) as [|Hc]; [done|].
    change (String c' pre +:+ String c pat' +:+ post)
      with (String c' (pre +:+ String c pat' +:+ post)).
    rewrite replace_from_eq. cbn [String.prefix].
    destruct (ascii_dec c c') as [->|_]; [done|]. by rewrite IH.
Qed.

Lemma replace_first (pat' rep pre post : string) (c : ascii) :
  occurs c pre = false → occurs "$" rep = false →
  replace (String c pat') rep (pre +:+ String c pat' +:+ post) = pre +:+ rep +:+ post.
Proof. apply replace_from_first. Qed.

(** Without the first character of the pattern there is nothing to
    replace. *)
Lemma replace_absent (pat' rep s : string) (c : ascii) :
  occurs c s = false → replace (String c pat') rep s = s.
Proof.
  unfold replace. generalize EmptyString as before.
  intros before Hs. revert before. induction s as [|c' s IH]; intros before; [done|].
  simpl in Hs. destruct (Ascii.eqb_spec c' c) as [|Hc]; [done|].
  rewrite replace_from_eq. cbn [String.prefix].
  destruct (ascii_dec c c') as [->|_]; [done|]. by rewrite IH.
Qed.

Lemma has_slash_append (a b : string) : has_slash (a +:+ "/" +:+ b) = true.
Proof. induction a as [|c a IH]; simpl; [done|]. by destruct (Ascii.eqb c "/"). Qed.

(** The last segment of [base/name] is what the regular expression
    matches. *)
Lemma replace_last_segment_last (rep base name : string) :
  name ≠ EmptyString → has_slash name = false →
  replace_last_segment rep (base +:+ "/" +:+ name) = base +:+ rep.
Proof.
  intros Hname Hslash. induction base as [|c base IH].
  - simpl. change (EmptyString +:+ name) with name.
    change (EmptyString +:+ rep) with rep. rewrite Hslash.
    destruct (String.eqb_spec name EmptyString); [done|]. done.
  - change (String c base +:+ "/" +:+ name) with (String c (base +:+ "/" +:+ name)).
    cbn [replace_last_segment].
    rewrite has_slash_append, andb_false_r. by rewrite IH.
Qed.

(** A url that ends with a slash, or has none, has no last segment. *)
Lemma replace_last_segment_none (rep url : string) :
  has_slash url = false ∨ (∃ base, url = base +:+ "/") →
  replace_last_segment rep url = url.
Proof.
  intros [Hnone | [base ->]].
  - induction url as [|c url IH]; [done|]. simpl in *.
    destruct (Ascii.eqb c "/"); [done|]. simpl. by rewrite IH.
  - induction base as [|c base IH]; [done|].
    change (String c base +:+ "/") with (String c (base +:+ "/")).
    cbn [replace_last_segment].
    replace (has_slash (base +:+ "/")) with true.
    + rewrite andb_false_r. by rewrite IH.
    + symmetry. apply (has_slash_append base EmptyString).
Qed.

(** X2. When the template is [pre{tenantId}post], with no brace in [pre],
    the database url of a tenant [t] whose id has no dollar sign (which
    [String.prototype.replace] would expand) is [pre t post]; so two such
    tenants never get the same url. *)
Theorem database_url_per_tenant (s : State) (pre post : string) :
  databaseUrlTemplate s = pre +:+ "{tenantId}" +:+ post →
  occurs "{" pre = false →
  (∀ t, occurs "$" t = false →
        getDatabaseUrlForTenant t s = (Returns (pre +:+ t +:+ post), s)) ∧
  (∀ t1 t2, occurs "$" t1 = false → occurs "$" t2 = false →
            result (getDatabaseUrlForTenant t1) s = result (getDatabaseUrlForTenant t2) s →
            t1 = t2).
Proof.
  intros Htemplate Hpre.
  assert (Hurl : ∀ t, occurs "$" t = false →
            getDatabaseUrlForTenant t s = (Returns (pre +:+ t +:+ post), s)).
  { intros t Ht. run. by rewrite Htemplate, replace_first. }
  split; [done|]. intros t1 t2 H1 H2. unfold result. rewrite !Hurl by done. simpl.
  intros [= H]. apply String.app_inj in H. by apply append_inj_l in H.
Qed.

Lemma database_url_per_tenant_witness :
  (∀ t, occurs "$" t = false →
        getDatabaseUrlForTenant t example_state =
          (Returns ("postgresql://u:p@h:5432/tenant_" +:+ t +:+ EmptyString), example_state)) ∧
  (∀ t1 t2, occurs "$" t1 = false → occurs "$" t2 = false →
            result (getDatabaseUrlForTenant t1) example_state =
              result (getDatabaseUrlForTenant t2) example_state → t1 = t2).
Proof.
  apply (database_url_per_tenant example_state "postgresql://u:p@h:5432/tenant_" EmptyString).
  - vm_compute. reflexivity.
  - vm_compute. reflexivity.
Defined.

(** X3. With no template configured and a master url [base/name], where
    [name] is not empty and has no slash, the template is
    [base/tenant_{tenantId}]; if [base] has no brace, a tenant [t] whose id
    has no dollar sign gets [base/tenant_t]. *)
Theorem default_template_from_master_url (config : SeparateDatabaseConfig)
    (rows : gmap string TenantRecord) (dbs : gset string) (fs cfs : list bool)
    (base name : string) :
  cfg_databaseUrlTemplate config = None →
  cfg_masterDatabaseUrl config = base +:+ "/" +:+ name →
  name ≠ EmptyString → has_slash name = false →
  let s := constructor config rows dbs fs cfs in
  databaseUrlTemplate s = base +:+ "/tenant_{tenantId}" ∧
  (occurs "{" base = false →
   ∀ t, occurs "$" t = false →
        result (getDatabaseUrlForTenant t) s = Returns (base +:+ "/tenant_" +:+ t)).
Proof.
  intros Hnone Hmaster Hname Hslash s.
  assert (Htemplate : databaseUrlTemplate s = base +:+ "/tenant_{tenantId}").
  { unfold s, constructor. cbn [databaseUrlTemplate]. rewrite Hnone, Hmaster.
    cbn [string_or]. by apply replace_last_segment_last. }
  split; [done|]. intros Hbase t Ht. unfold result. run. rewrite Htemplate.
  pose proof (replace_first "tenantId}" t (base +:+ "/tenant_") EmptyString "{") as H.
  rewrite occurs_append, Hbase in H. specialize (H eq_refl Ht).
  rewrite append_nil_r, !append_assoc in H.
  change ("/tenant_" +:+ "{tenantId}") with "/tenant_{tenantId}" in H.
  by rewrite H, append_nil_r.
Qed.

Lemma default_template_from_master_url_witness :
  let s := constructor example_config example_rows ∅ [] [] in
  databaseUrlTemplate s = "postgresql://u:p@h:5432" +:+ "/tenant_{tenantId}" ∧
  (occurs "{" "postgresql://u:p@h:5432" = false →
   ∀ t, occurs "$" t = false →
        result (getDatabaseUrlForTenant t) s =
          Returns ("postgresql://u:p@h:5432" +:+ "/tenant_" +:+ t)).
Proof.
  apply (default_template_from_master_url example_config example_rows ∅ [] []
           "postgresql://u:p@h:5432" "master");
    [reflexivity | reflexivity | discriminate | reflexivity].
Defined.

(** X4. With no template configured and a master url without a last
    segment to replace (it ends with a slash, or has no slash) and without a
    brace, the template is the master url and every tenant's database url is
    the master url itself. *)
Theorem master_url_without_segment (config : SeparateDatabaseConfig)
    (rows : gmap string TenantRecord) (dbs : gset string) (fs cfs : list bool) :
  cfg_databaseUrlTemplate config = None →
  cfg_masterDatabaseUrl config ≠ EmptyString →
  (has_slash (cfg_masterDatabaseUrl config) = false ∨
   ∃ base, cfg_masterDatabaseUrl config = base +:+ "/") →
  occurs "{" (cfg_masterDatabaseUrl config) = false →
  let s := constructor config rows dbs fs cfs in
  ∀ t, result (getDatabaseUrlForTenant t) s = Returns (cfg_masterDatabaseUrl config).
Proof.
  intros Hnone Hne Hseg Hbrace s t. unfold result, s, constructor. run.
  rewrite Hnone. cbn [string_or].
  rewrite replace_last_segment_none by done.
  by rewrite replace_absent.
Qed.

Lemma master_url_without_segment_witness :
  let config := {| cfg_masterDatabaseUrl := "postgresql://u:p@h:5432/";
                   cfg_databaseUrlTemplate := None;
                   cfg_maxConnections := None; cfg_cacheTtl := None |} in
  result (getDatabaseUrlForTenant "a") (constructor config example_rows ∅ [] []) =
    Returns "postgresql://u:p@h:5432/" ∧
  result (getDatabaseUrlForTenant "b") (constructor config example_rows ∅ [] []) =
    Returns "postgresql://u:p@h:5432/".
Proof.
  intros config.
  assert (H : ∀ t, result (getDatabaseUrlForTenant t)
                     (constructor config example_rows ∅ [] []) =
                   Returns "postgresql://u:p@h:5432/").
  { apply (master_url_without_segment config example_rows ∅ [] []).
    - reflexivity.
    - discriminate.
    - right. by exists "postgresql://u:p@h:5432".
    - reflexivity. }
  split; apply H.
Defined.


(** ** Validation and the cached context *)

(** X5. [validateTenant] never throws. When the lookup fails it answers
    [false]; when the lookup goes through it answers [null] for a tenant
    that is not in the table, and the tenant's [isActive] for one that is.
    So it answers [true] exactly when the lookup goes through and finds an
    active tenant. It leaves the pool, the cache, the timers and the tenant
    table alone. *)
Theorem validateTenant_answer (tenantId : string) (s : State) :
  let s' := after (validateTenant tenantId) s in
  result (validateTenant tenantId) s =
    Returns (if bool_decide (head (faults s) = Some true) then Some false
             else tenant_isActive <$> tenants s !! tenantId) ∧
  (result (validateTenant tenantId) s = Returns (Some true) ↔
   head (faults s) ≠ Some true ∧
   ∃ r, tenants s !! tenantId = Some r ∧ tenant_isActive r = true) ∧
  (result (validateTenant tenantId) s = Returns None ↔
   head (faults s) ≠ Some true ∧ tenants s !! tenantId = None) ∧
  prismaClients s' = prismaClients s ∧ connected s' = connected s ∧
  tenantCache s' = tenantCache s ∧ timers s' = timers s ∧
  tenants s' = tenants s.
Proof.
  intros s'. subst s'.
  assert (Hres : result (validateTenant tenantId) s =
            Returns (if bool_decide (head (faults s) = Some true) then Some false
                     else tenant_isActive <$> tenants s !! tenantId)).
  { unfold result. run. destruct (faults s) as [|[] fs]; run;
      by destruct (tenants s !! tenantId). }
  split; [done|]. rewrite Hres. split_all.
  - case_bool_decide as Hf.
    + split; [discriminate | by intros [? _]].
    + destruct (tenants s !! tenantId) as [r|]; simpl.
      * split; [intros [= Ha]; split; [done | by exists r]
               | intros (_ & r' & [= <-] & ->); done].
      * split; [discriminate | by intros (_ & r' & [=] & _)].
  - case_bool_decide as Hf.
    + split; [discriminate | by intros [? _]].
    + destruct (tenants s !! tenantId) as [r|]; simpl.
      * split; [discriminate | by intros [_ [=]]].
      * done.
  - unfold after. explore; done.
  - unfold after. explore; done.
  - unfold after. explore; done.
  - unfold after. explore; done.
  - unfold after. explore; done.
Qed.

(** A cache entry with no callback due stays. *)
Lemma advance_keeps (t : Z) (s : State) (k : string) :
  (∀ due, (due, k) ∈ timers s → t < due) →
  tenantCache (advance t s) !! k = tenantCache s !! k.
Proof.
  intros Hlater. unfold advance. rewrite foldl_fire_cache, foldl_delete_lookup.
  cbn [tenantCache set_now set_timers].
  rewrite decide_False; [done|].
  intros ([due k'] & -> & Hin)%list_elem_of_fmap.
  apply list_elem_of_filter in Hin as [Hdue Hin]. simpl in *.
  specialize (Hlater due Hin). lia.
Qed.

(** The miss, when the lookup fails or finds no active tenant. *)
Lemma getTenantContext_miss_none (tenantId : string) (s : State) :
  tenantCache s !! tenantId = None →
  (head (faults s) = Some true ∨ tenants s !! tenantId = None ∨
   ∃ r, tenants s !! tenantId = Some r ∧ tenant_isActive r = false) →
  ∃ s', getTenantContext tenantId s = (Returns None, s') ∧
        tenantCache s' = tenantCache s ∧ timers s' = timers s ∧
        prismaClients s' = prismaClients s.
Proof.
  intros Hmiss Hwhy. run. rewrite Hmiss.
  destruct (faults s) as [|[] fs] eqn:Hf; run.
  - destruct Hwhy as [? | [-> | (r & -> & Hr)]]; [done| |]; run; rewrite ?Hr; simpl;
      by eexists.
  - by eexists.
  - destruct Hwhy as [? | [-> | (r & -> & Hr)]]; [done| |]; run; rewrite ?Hr; simpl;
      by eexists.
Qed.

(** The miss, when the lookup finds an active tenant. *)
Lemma getTenantContext_miss_some (tenantId : string) (s : State) r :
  tenantCache s !! tenantId = None →
  head (faults s) ≠ Some true →
  tenants s !! tenantId = Some r → tenant_isActive r = true →
  let url :=
    match tenant_config r ≫= (.!! "databaseUrl") with
    | Some u => if truthy u then u else replace "{tenantId}" tenantId (databaseUrlTemplate s)
    | None => replace "{tenantId}" tenantId (databaseUrlTemplate s)
    end in
  let context :=
    {| ctx_id := tenant_id r; ctx_name := tenant_name r;
       ctx_config := default ∅ (tenant_config r); ctx_database := url |} in
  ∃ s', getTenantContext tenantId s = (Returns (Some context), s') ∧
        tenantCache s' = <[tenantId := context]> (tenantCache s) ∧
        timers s' = timers s ++ [(now s + timeout_delay (cacheTtl s), tenantId)] ∧
        prismaClients s' = prismaClients s ∧ tenants s' = tenants s ∧
        now s' = now s ∧ cacheTtl s' = cacheTtl s.
Proof.
  intros Hmiss Hf Hr Ha url context. subst url context. run. rewrite Hmiss.
  destruct (faults s) as [|[] fs]; [|done|]; run; rewrite Hr, Ha; run;
    repeat (split_match; run);
    first [by simpl in * | (eexists; split; [reflexivity|]; done)].
Qed.

(** X6. On a cache miss [getTenantContext] never throws. If the lookup
    fails, or finds no tenant or an inactive one, the answer is [null] and
    neither the cache nor the timers change: a negative answer is not
    cached. If it finds an active tenant the context carries the url stored
    in the tenant's config when that is a non-empty string, else the url made
    from the template; the context is cached and one expiry callback is
    scheduled, due after the delay [setTimeout] makes of [cacheTtl]: that is
    [cacheTtl] itself when it lies between 1 and 2^31 - 1. *)
Theorem getTenantContext_on_a_miss (tenantId : string) (s : State) :
  tenantCache s !! tenantId = None →
  let s' := after (getTenantContext tenantId) s in
  ((head (faults s) = Some true ∨ tenants s !! tenantId = None ∨
    (∃ r, tenants s !! tenantId = Some r ∧ tenant_isActive r = false)) →
   result (getTenantContext tenantId) s = Returns None ∧
   tenantCache s' = tenantCache s ∧ timers s' = timers s) ∧
  (∀ r, head (faults s) ≠ Some true →
        tenants s !! tenantId = Some r → tenant_isActive r = true →
        ∃ context,
          result (getTenantContext tenantId) s = Returns (Some context) ∧
          ctx_id context = tenant_id r ∧ ctx_name context = tenant_name r ∧
          ctx_config context = default ∅ (tenant_config r) ∧
          ctx_database context =
            match tenant_config r ≫= (.!! "databaseUrl") with
            | Some u =>
                if truthy u then u
                else replace "{tenantId}" tenantId (databaseUrlTemplate s)
            | None => replace "{tenantId}" tenantId (databaseUrlTemplate s)
            end ∧
          tenantCache s' = <[tenantId := context]> (tenantCache s) ∧
          timers s' = timers s ++ [(now s + timeout_delay (cacheTtl s), tenantId)]).
Proof.
  intros Hmiss s'. subst s'. unfold after, result. split.
  - intros Hwhy.
    destruct (getTenantContext_miss_none tenantId s Hmiss Hwhy) as (s' & -> & ? & ? & _).
    done.
  - intros r Hf Hr Ha.
    destruct (getTenantContext_miss_some tenantId s r Hmiss Hf Hr Ha)
      as (s' & -> & ? & ? & _).
    eexists. split; [reflexivity|]. done.
Qed.

Lemma getTenantContext_on_a_miss_witness :
  let s' := after (getTenantContext "e") example_state in
  ((head (faults example_state) = Some true ∨ tenants example_state !! "e" = None ∨
    (∃ r, tenants example_state !! "e" = Some r ∧ tenant_isActive r = false)) →
   result (getTenantContext "e") example_state = Returns None ∧
   tenantCache s' = tenantCache example_state ∧ timers s' = timers example_state) ∧
  (∀ r, head (faults example_state) ≠ Some true →
        tenants example_state !! "e" = Some r → tenant_isActive r = true →
        ∃ context,
          result (getTenantContext "e") example_state = Returns (Some context) ∧
          ctx_id context = tenant_id r ∧ ctx_name context = tenant_name r ∧
          ctx_config context = default ∅ (tenant_config r) ∧
          ctx_database context =
            match tenant_config r ≫= (.!! "databaseUrl") with
            | Some u =>
                if truthy u then u
                else replace "{tenantId}" "e" (databaseUrlTemplate example_state)
            | None => replace "{tenantId}" "e" (databaseUrlTemplate example_state)
            end ∧
          tenantCache s' = <["e" := context]> (tenantCache example_state) ∧
          timers s' = timers example_state ++
                      [(now example_state + timeout_delay (cacheTtl example_state), "e")]).
Proof.
  apply (getTenantContext_on_a_miss "e" example_state). vm_compute. reflexivity.
Defined.



(** X8. A context resolved on a miss, with no callback pending for its
    tenant id, stays cached until the clock reaches [now] plus the delay
    [setTimeout] makes of [cacheTtl], and is gone from then on. For a
    [cacheTtl] between 1 and 2^31 - 1 that is at [now + cacheTtl]; for any
    other it is after 1 ms. *)
Theorem cache_entry_lifetime (tenantId : string) (s : State) context s1 :
  tenantCache s !! tenantId = None →
  (∀ due, (due, tenantId) ∉ timers s) →
  getTenantContext tenantId s = (Returns (Some context), s1) →
  (∀ t, tenantCache (advance t s1) !! tenantId =
        if bool_decide (t < now s + timeout_delay (cacheTtl s))
        then Some context else None) ∧
  (1 ≤ cacheTtl s ≤ 2147483647 → timeout_delay (cacheTtl s) = cacheTtl s) ∧
  (cacheTtl s < 1 ∨ 2147483647 < cacheTtl s → timeout_delay (cacheTtl s) = 1).
Proof.
  intros Hmiss Hnone Hcall.
  split; [|split; [apply timeout_delay_in_range | apply timeout_delay_out_of_range]].
  intros t.
  assert (Hs1 : tenantCache s1 = <[tenantId := context]> (tenantCache s) ∧
                timers s1 = timers s ++ [(now s + timeout_delay (cacheTtl s), tenantId)]).
  { revert Hcall. run. rewrite Hmiss. explore; intros [= <- <-]; run; done. }
  destruct Hs1 as [Hcache Htimers].
  case_bool_decide as Ht.
  - rewrite advance_keeps, Hcache; [apply lookup_insert_eq|].
    intros due. rewrite Htimers. intros [Hin|Hin]%elem_of_app.
    + by destruct (Hnone due).
    + apply list_elem_of_singleton in Hin. injection Hin as ->. lia.
  - apply (advance_deletes t (now s + timeout_delay (cacheTtl s))); [|lia].
    rewrite Htimers. apply elem_of_app. right. by apply list_elem_of_singleton.
Qed.

Lemma cache_entry_lifetime_witness :
  let context := {| ctx_id := "a"; ctx_name := "a"; ctx_config := ∅;
                    ctx_database := "postgresql://u:p@h:5432/tenant_a" |} in
  tenantCache (advance 99 (after (getTenantContext "a") example_state)) !! "a" =
    (if bool_decide (99 < now example_state + timeout_delay (cacheTtl example_state))
     then Some context else None) ∧
  tenantCache (advance 100 (after (getTenantContext "a") example_state)) !! "a" =
    (if bool_decide (100 < now example_state + timeout_delay (cacheTtl example_state))
     then Some context else None) ∧
  timeout_delay (cacheTtl example_state) = cacheTtl example_state.
Proof.
  intros context.
  destruct (cache_entry_lifetime "a" example_state context
              (after (getTenantContext "a") example_state)) as (H & Hin & _).
  - vm_compute. reflexivity.
  - intros due. apply not_elem_of_nil.
  - vm_compute. reflexivity.
  - split; [apply H|]. split; [apply H|]. apply Hin. vm_compute.
    split; discriminate.
Defined.

(** A time to live beyond what [setTimeout] takes: the entry is gone after
    one millisecond. *)
Example cache_entry_with_a_long_ttl :
  let config := {| cfg_masterDatabaseUrl := "postgresql://u:p@h:5432/master";
                   cfg_databaseUrlTemplate := None;
                   cfg_maxConnections := None;
                   cfg_cacheTtl := Some 2147483648 |} in
  let s := constructor config example_rows ∅ [] [] in
  let s1 := after (getTenantContext "a") s in
  timers s1 = [(1, "a")] ∧
  is_Some (tenantCache s1 !! "a") ∧
  tenantCache (advance 1 s1) !! "a" = None.
Proof. split_all; [vm_compute; reflexivity | by eexists | vm_compute; reflexivity]. Qed.

(** X9. [clearCache] with a tenant id makes the next [getTenantContext]
    for that tenant go back to the tenant table: for a tenant that is gone or
    inactive by then the answer is [null]. *)
Theorem clearCache_makes_changes_visible (tenantId : string) (s : State) :
  tenantId ≠ EmptyString →
  (tenants s !! tenantId = None ∨
   ∃ r, tenants s !! tenantId = Some r ∧ tenant_isActive r = false) →
  result (getTenantContext tenantId) (after (clearCache (Some tenantId)) s) = Returns None.
Proof.
  intros Hid Hwhy. unfold after at 1. unfold clearCache.
  rewrite (truthy_nonempty _ Hid). unfold result.
  edestruct (getTenantContext_miss_none tenantId (tenantCache_delete tenantId s).2)
    as (s' & -> & _); [| |done].
  - run. apply lookup_delete_eq.
  - right. by run.
Qed.

Lemma clearCache_makes_changes_visible_witness :
  let s := deactivate "a" (after (getTenantContext "a") example_state) in
  is_Some (tenantCache s !! "a") ∧
  result (getTenantContext "a") (after (clearCache (Some "a")) s) = Returns None.
Proof.
  intros s. split; [eexists; vm_compute; reflexivity|].
  apply (clearCache_makes_changes_visible "a" s); [discriminate|].
  right. eexists. split; vm_compute; reflexivity.
Defined.


(** ** Closing one tenant's client *)

Section JsMapDelete.
Context {V : Type}.
Implicit Types (m : list (string * V)) (k : string) (v : V).

Lemma get_delete_ne k k' m : k ≠ k' → JsMap.get k (JsMap.delete k' m) = JsMap.get k m.
Proof.
  intros Hne. induction m as [|[k0 v0] m IH]; simpl; [done|].
  destruct (String.eqb_spec k0 k') as [->|Hne0]; simpl.
  - destruct (String.eqb_spec k' k); [congruence | done].
  - destruct (String.eqb_spec k0 k); [done | apply IH].
Qed.

Lemma get_delete_eq k m : NoDup (JsMap.keys m) → JsMap.get k (JsMap.delete k m) = None.
Proof.
  unfold JsMap.keys. induction m as [|[k0 v0] m IH]; simpl; [done|].
  rewrite NoDup_cons. intros [Hk0 Hnd].
  destruct (String.eqb_spec k0 k) as [->|Hne]; simpl.
  - by apply get_None_keys.
  - destruct (String.eqb_spec k0 k); [done | by apply IH].
Qed.

(** [get] finds the first entry of the key and [delete] removes that one. *)
Lemma get_Some_split k v m :
  JsMap.get k m = Some v →
  ∃ m1 m2, m = m1 ++ (k, v) :: m2 ∧ JsMap.delete k m = m1 ++ m2.
Proof.
  induction m as [|[k0 v0] m IH]; simpl; [done|].
  destruct (String.eqb_spec k0 k) as [->|Hne].
  - intros [= ->]. by exists [], m.
  - intros Hget. destruct (IH Hget) as (m1 & m2 & -> & ->).
    by exists ((k0, v0) :: m1), m2.
Qed.

End JsMapDelete.

(** X10. [disconnectTenant] fails in one case only: the tenant has a
    pooled client and its [$disconnect] is rejected; the entry then stays in
    the map. In every other case it returns, and afterwards the tenant has
    no pooled client, the client it had is closed, and the entries of the
    other tenants are what they were; a second call changes nothing at
    all. *)
Theorem disconnectTenant_closes_and_forgets (tenantId : string) (s : State) :
  NoDup (JsMap.keys (prismaClients s)) →
  let pooled := JsMap.get tenantId (prismaClients s) in
  let s' := after (disconnectTenant tenantId) s in
  (is_Some pooled → head (closeFaults s) = Some true →
   (∃ e, result (disconnectTenant tenantId) s = Throws e) ∧
   prismaClients s' = prismaClients s ∧ connected s' = connected s) ∧
  (pooled = None ∨ head (closeFaults s) ≠ Some true →
   result (disconnectTenant tenantId) s = Returns tt ∧
   JsMap.get tenantId (prismaClients s') = None ∧
   (∀ c, pooled = Some c → closed c s') ∧
   (∀ k, k ≠ tenantId → JsMap.get k (prismaClients s') = JsMap.get k (prismaClients s)) ∧
   after (disconnectTenant tenantId) s' = s').
Proof.
  intros Hnd pooled s'. subst pooled s'. unfold after, result, closed. run.
  destruct (JsMap.get tenantId (prismaClients s)) as [c|] eqn:Hget; run.
  - destruct (closeFaults s) as [|[] cfs] eqn:Hcf; run; rewrite ?Hcf; simpl.
    + split; [done|]. intros _. rewrite get_delete_eq by done. split_all; try done.
      * intros c' [= <-]. apply not_elem_of_difference. right. by apply elem_of_singleton.
      * intros k Hk. by apply get_delete_ne.
    + split; [intros _ _; split_all; [by eexists | done..]|].
      by intros [|Hne]; [|destruct Hne].
    + split; [done|]. intros _. rewrite get_delete_eq by done. split_all; try done.
      * intros c' [= <-]. apply not_elem_of_difference. right. by apply elem_of_singleton.
      * intros k Hk. by apply get_delete_ne.
  - rewrite Hget. split; [by intros [? ?]|]. intros _. split_all; try done.
Qed.

Lemma disconnectTenant_closes_and_forgets_witness :
  let s := after (mapM getPrismaClient ["a"; "b"]) example_state in
  let s' := after (disconnectTenant "a") s in
  result (disconnectTenant "a") s = Returns tt ∧
  JsMap.get "a" (prismaClients s') = None ∧
  (∀ c, JsMap.get "a" (prismaClients s) = Some c → closed c s') ∧
  (∀ k, k ≠ "a" → JsMap.get k (prismaClients s') = JsMap.get k (prismaClients s)) ∧
  after (disconnectTenant "a") s' = s'.
Proof.
  intros s.
  destruct (disconnectTenant_closes_and_forgets "a" s) as [_ H].
  - vm_compute. compute_done.
  - apply H. right. vm_compute. discriminate.
Defined.

(** The close of [a] is rejected: the call throws and [a] stays pooled. *)
Example disconnectTenant_rejected :
  let s := after (mapM getPrismaClient ["a"; "b"]) example_state_close_rejected in
  let s' := after (disconnectTenant "a") s in
  (∃ e, result (disconnectTenant "a") s = Throws e) ∧
  prismaClients s' = prismaClients s ∧ is_Some (JsMap.get "a" (prismaClients s')).
Proof.
  split_all; [eexists; vm_compute; reflexivity | vm_compute; reflexivity
             | eexists; vm_compute; reflexivity].
Qed.

(** ** The health check *)

(** X11. [checkTenantHealth] never throws. When [getPrismaClient] fails
    the answer is [false] and nothing else happens. When it returns a client
    the answer is whether the probe query goes through, and the pool is left
    as [getPrismaClient] left it: a health check pools the tenant, and may
    evict another one, like any other call; for a tenant that is pooled
    already the tenant table is not consulted. *)
Theorem checkTenantHealth_reports (tenantId : string) (s : State) :
  match getPrismaClient tenantId s with
  | (Returns c, s1) =>
      result (checkTenantHealth tenantId) s =
        Returns (negb (bool_decide (head (faults s1) = Some true))) ∧
      prismaClients (after (checkTenantHealth tenantId) s) = prismaClients s1
  | (Throws e, s1) => checkTenantHealth tenantId s = (Returns false, s1)
  end.
Proof.
  unfold after, result, checkTenantHealth, try_catch. rewrite bind_run.
  destruct (getPrismaClient tenantId s) as [[c|e] s1]; [|done].
  unfold queryRaw_select1. run. by destruct (faults s1) as [|[] fs].
Qed.

(** A tenant that was switched off while pooled still reports healthy. *)
Example health_of_a_pooled_inactive_tenant :
  let s := deactivate "a" (after (getPrismaClient "a") example_state) in
  result (validateTenant "a") s = Returns (Some false) ∧
  result (checkTenantHealth "a") s = Returns true.
Proof. split_all; vm_compute; reflexivity. Qed.


(** ** The bookkeeping of the pool *)

Lemma consistent_nil (conn : gset nat) (next : nat) : consistent [] conn next.
Proof. repeat split; constructor. Qed.

Lemma consistent_mono (m : list (string * PrismaClient)) (conn conn' : gset nat)
    (next next' : nat) :
  consistent m conn next → conn ⊆ conn' → (next ≤ next')%nat →
  consistent m conn' next'.
Proof.
  intros (Hk & Hr & Hc) Hconn Hnext. repeat split; [done..|].
  eapply Forall_impl; [done|]. intros c [Hin Hlt]. split; [by apply Hconn | lia].
Qed.

(** A new client, just connected, under a key that is not there. *)
Lemma consistent_snoc (m : list (string * PrismaClient)) (conn : gset nat) (next : nat)
    (k : string) (c : PrismaClient) :
  consistent m conn next → JsMap.get k m = None → ref c = next →
  consistent (m ++ [(k, c)]) ({[ref c]} ∪ conn) (S next).
Proof.
  intros (Hk & Hr & Hc) Hfresh Href. unfold consistent, JsMap.keys, JsMap.values in *.
  rewrite !fmap_app. simpl. repeat split.
  - apply NoDup_app. split; [done|]. split; [|apply NoDup_singleton].
    intros k' Hin ->%list_elem_of_singleton. by apply get_None_keys in Hfresh.
  - apply NoDup_app. split; [done|]. split; [|apply NoDup_singleton].
    intros n Hin ->%list_elem_of_singleton.
    apply list_elem_of_fmap in Hin as (c' & Heq & Hin).
    rewrite Forall_forall in Hc. destruct (Hc c' Hin) as [_ Hlt]. lia.
  - apply Forall_app. split.
    + eapply Forall_impl; [done|]. intros c' [Hin Hlt].
      split; [apply elem_of_union; by right | lia].
    + constructor; [|constructor]. split; [apply elem_of_union; left;
        by apply elem_of_singleton | lia].
Qed.

(** An entry goes and its client is disconnected. *)
Lemma consistent_remove (m1 m2 : list (string * PrismaClient)) (conn : gset nat)
    (next : nat) (k : string) (c : PrismaClient) :
  consistent (m1 ++ (k, c) :: m2) conn next →
  consistent (m1 ++ m2) (conn ∖ {[ref c]}) next.
Proof.
  intros (Hk & Hr & Hc). unfold consistent, JsMap.keys, JsMap.values in *.
  rewrite !fmap_app in *. simpl in *.
  apply NoDup_app in Hk as (Hk1 & Hk12 & Hk2).
  apply NoDup_app in Hr as (Hr1 & Hr12 & Hr2).
  apply NoDup_cons in Hk2 as [_ Hk2]. apply NoDup_cons in Hr2 as [Hrc Hr2].
  apply Forall_app in Hc as [Hc1 Hc2]. apply Forall_cons in Hc2 as [_ Hc2].
  repeat split.
  - apply NoDup_app. split; [done|]. split; [|done].
    intros k' Hin Hin2. apply (Hk12 k' Hin). by apply list_elem_of_further.
  - apply NoDup_app. split; [done|]. split; [|done].
    intros n Hin Hin2. apply (Hr12 n Hin). by apply list_elem_of_further.
  - apply Forall_app. split.
    + rewrite Forall_forall in Hc1 |- *. intros c' Hin. destruct (Hc1 c' Hin) as [Hconn Hlt].
      split; [|done]. apply elem_of_difference. split; [done|].
      intros Heq%elem_of_singleton.
      apply (Hr12 (ref c)); [|apply list_elem_of_here].
      rewrite <- Heq. by apply list_elem_of_fmap_2.
    + rewrite Forall_forall in Hc2 |- *. intros c' Hin. destruct (Hc2 c' Hin) as [Hconn Hlt].
      split; [|done]. apply elem_of_difference. split; [done|].
      intros Heq%elem_of_singleton. apply Hrc. rewrite <- Heq.
      by apply list_elem_of_fmap_2.
Qed.

(** A client that was never pooled is disconnected. *)
Lemma consistent_disconnect_new (m : list (string * PrismaClient)) (conn : gset nat)
    (next r : nat) :
  consistent m conn next → (next ≤ r)%nat → consistent m (conn ∖ {[r]}) next.
Proof.
  intros (Hk & Hr & Hc) Hle. repeat split; [done..|].
  eapply Forall_impl; [done|]. intros c [Hin Hlt]. split; [|done].
  apply elem_of_difference. split; [done|]. intros Heq%elem_of_singleton. lia.
Qed.

Lemma consistent_delete (m : list (string * PrismaClient)) (conn : gset nat)
    (next : nat) (k : string) (c : PrismaClient) :
  consistent m conn next → JsMap.get k m = Some c →
  consistent (JsMap.delete k m) (conn ∖ {[ref c]}) next.
Proof.
  intros Hm Hget. apply get_Some_split in Hget as (m1 & m2 & -> & ->).
  by eapply consistent_remove.
Qed.

(** What a consistent pool means for its users. *)
Lemma consistent_get (m : list (string * PrismaClient)) (conn : gset nat) (next : nat)
    (k : string) (c : PrismaClient) :
  consistent m conn next → JsMap.get k m = Some c → ref c ∈ conn ∧ (ref c < next)%nat.
Proof.
  intros (_ & _ & Hc) Hget. apply get_Some_split in Hget as (m1 & m2 & -> & _).
  unfold JsMap.values in Hc. rewrite fmap_app in Hc.
  apply Forall_app in Hc as [_ Hc]. by apply Forall_cons in Hc as [Hc _].
Qed.

(** ** What a call does to the pool *)

Lemma getPrismaClient_dial_nextRef (tenantId : string) (s : State) :
  (nextRef s ≤ nextRef (after (getPrismaClient_dial tenantId) s))%nat.
Proof. unfold after. explore; cbn [snd]; run; lia. Qed.

(** What admission returns is the client it was given. *)
Lemma getPrismaClient_admit_client (tenantId : string) (c : PrismaClient) (s : State) c' s' :
  getPrismaClient_admit tenantId c s = (Returns c', s') → c' = c.
Proof. explore; congruence. Qed.

(** The outcome of a call for a tenant that is not pooled, when it
    returns: the new client is connected and appended; then, if the map is
    over the limit and its first key is not empty, the first entry goes. *)
Lemma getPrismaClient_fresh_run (tenantId : string) (s : State) c s' :
  JsMap.get tenantId (prismaClients s) = None →
  getPrismaClient tenantId s = (Returns c, s') →
  ref c = nextRef s ∧ nextRef s' = S (nextRef s) ∧
  maxConnections s' = maxConnections s ∧
  (closeFaults s' = closeFaults s ∨ closeFaults s' = tail (closeFaults s)) ∧
  match prismaClients s ++ [(tenantId, c)] with
  | (k, c0) :: p =>
      if bool_decide (JsMap.size (prismaClients s) + 1 > maxConnections s) && truthy k
      then prismaClients s' = p ∧
           connected s' = ({[ref c]} ∪ connected s) ∖ {[ref c0]}
      else prismaClients s' = prismaClients s ++ [(tenantId, c)] ∧
           connected s' = {[ref c]} ∪ connected s
  | [] => False
  end.
Proof.
  intros Hfresh. rewrite getPrismaClient_split, bind_run.
  destruct (getPrismaClient_dial tenantId s) as [[[c0|c0]|e1] s0] eqn:Hdial;
    apply getPrismaClient_dial_spec in Hdial as (Hpool & Hmax & _ & Hcf & Hdial).
  - destruct Hdial as [Hpooled _]. congruence.
  - destruct Hdial as (_ & Href & Hnext & Hconn & _). simpl. intros Hadmit.
    pose proof (getPrismaClient_admit_client _ _ _ _ _ Hadmit) as ->.
    destruct (getPrismaClient_admit_run tenantId c0 s0) as (o & s2 & Hrun & Hn & Hm & H);
      [congruence|].
    rewrite Hadmit in Hrun. injection Hrun as <- <-.
    rewrite Hpool, Hmax, Hconn, Hcf in H.
    destruct (prismaClients s ++ [(tenantId, c0)]) as [|[k c1] p]; [done|].
    destruct (bool_decide _ && truthy k).
    + destruct (closeFaults s) as [|[] cfs].
      * destruct H as (_ & -> & -> & -> & _).
        split_all; [done | congruence | congruence | by left | done | done].
      * by destruct H as ([e [=]] & _).
      * destruct H as (_ & -> & -> & -> & _).
        split_all; [done | congruence | congruence | by right | done | done].
    + destruct H as (_ & -> & -> & -> & _).
      split_all; [done | congruence | congruence | by left | done | done].
  - discriminate.
Qed.

(** As long as no [$disconnect] is rejected a call that fails has left the
    pool alone. *)
Lemma getPrismaClient_throws_quiet (tenantId : string) (s : State) e s1 :
  closeFaults s = [] →
  getPrismaClient tenantId s = (Throws e, s1) →
  prismaClients s1 = prismaClients s ∧ maxConnections s1 = maxConnections s ∧
  connected s1 = connected s ∧ closeFaults s1 = [].
Proof.
  intros Hcf Hcall.
  apply getPrismaClient_throws in Hcall
    as (Hm & [(Hp & Hc & Hcf1 & _) | (c & _ & _ & _ & _ & _ & Hhead & _)]).
  - split_all; congruence.
  - by rewrite Hcf in Hhead.
Qed.

Lemma getPrismaClient_consistent (tenantId : string) (s : State) :
  closeFaults s = [] → pool_consistent s →
  pool_consistent (after (getPrismaClient tenantId) s) ∧
  maxConnections (after (getPrismaClient tenantId) s) = maxConnections s ∧
  closeFaults (after (getPrismaClient tenantId) s) = [].
Proof.
  intros Hcf Hs. unfold after.
  destruct (JsMap.get tenantId (prismaClients s)) as [c|] eqn:Hget.
  { by rewrite (getPrismaClient_pooled _ _ _ Hget). }
  destruct (getPrismaClient tenantId s) as [[c|e] s'] eqn:Hcall; simpl.
  - destruct (getPrismaClient_fresh_run _ _ _ _ Hget Hcall)
      as (Href & Hnext & Hmax & Hcf1 & Hrun).
    split; [|split; [done | by destruct Hcf1 as [-> | ->]; rewrite Hcf]].
    unfold pool_consistent. rewrite Hnext.
    pose proof (consistent_snoc _ _ _ tenantId c Hs Hget Href) as Hsnoc.
    destruct (prismaClients s ++ [(tenantId, c)]) as [|[k c0] p]; [done|].
    destruct (bool_decide _ && truthy k); destruct Hrun as [-> ->]; [|done].
    by apply (consistent_remove [] p _ _ k c0).
  - pose proof (getPrismaClient_dial_nextRef tenantId s) as Hnext.
    destruct (getPrismaClient_throws_quiet _ _ _ _ Hcf Hcall) as (Hp & Hm & Hc & Hcf1).
    split; [|done]. unfold pool_consistent. rewrite Hp, Hc.
    apply (consistent_mono _ (connected s) _ (nextRef s)); [done | done |].
    revert Hcall Hnext. unfold after. rewrite getPrismaClient_split, bind_run.
    destruct (getPrismaClient_dial tenantId s) as [[[c0|c0]|e1] s0] eqn:Hdial; simpl.
    + unfold mret, M_ret. discriminate.
    + intros Hadmit Hnext.
      apply getPrismaClient_admit_throws in Hadmit as (_ & _ & _ & Hn & _);
        [lia|].
      by apply getPrismaClient_dial_spec in Hdial as (-> & _ & _ & _ & ? & _).
    + by intros [= <- <-] Hnext.
Qed.

Lemma foldl_fire_pool (due : list (Z * string)) (s : State) :
  prismaClients (foldl fire s due) = prismaClients s ∧
  connected (foldl fire s due) = connected s ∧
  nextRef (foldl fire s due) = nextRef s ∧
  maxConnections (foldl fire s due) = maxConnections s ∧
  closeFaults (foldl fire s due) = closeFaults s.
Proof.
  revert s. induction due as [|timer due IH]; intros s; [done|].
  simpl. destruct (IH (fire s timer)) as (-> & -> & -> & -> & ->). done.
Qed.

(** As long as no [$disconnect] is rejected [disconnectAll] empties the
    pool and leaves no pooled client connected. *)
Lemma disconnectAll_pool (s : State) :
  closeFaults s = [] →
  prismaClients (after disconnectAll s) = [] ∧
  maxConnections (after disconnectAll s) = maxConnections s ∧
  nextRef (after disconnectAll s) = nextRef s ∧
  closeFaults (after disconnectAll s) = [] ∧
  ∀ n, n ∈ connected (after disconnectAll s) ↔
       n ∈ connected s ∧ n ∉ ref <$> JsMap.values (prismaClients s).
Proof.
  intros Hcf. unfold after.
  assert (Hrun : disconnectAll s =
            match Promise_all (disconnect <$> JsMap.values (prismaClients s)) s with
            | (Returns _, s1) => (prismaClients_clear;; master_disconnect) s1
            | (Throws e, s1) => (Throws e, s1)
            end) by reflexivity.
  rewrite Hrun. clear Hrun.
  destruct (Promise_all_disconnect (JsMap.values (prismaClients s)) s)
    as (o & s1 & -> & _ & _ & _ & Hmax & Hnext & Hcf1 & _ & Hok & _).
  rewrite Hcf, take_nil in Hok. rewrite Hcf, drop_nil in Hcf1.
  destruct Hok as [-> Hconn]; [apply not_elem_of_nil|].
  run. rewrite Hcf1. by run.
Qed.

(** The calls that do not touch the pool. *)
Lemma quiet_calls (c : call) (s : State) :
  match c with
  | CallValidateTenant _ | CallGetTenantContext _ | CallBackupTenantDatabase _ _
  | CallRestoreTenantDatabase _ _ | CallClearCache _ | CallGetActiveTenants
  | TimersUntil _ | TenantTableBecomes _ => True
  | _ => False
  end →
  prismaClients (run_call s c) = prismaClients s ∧
  connected (run_call s c) = connected s ∧
  nextRef (run_call s c) = nextRef s ∧
  maxConnections (run_call s c) = maxConnections s ∧
  closeFaults (run_call s c) = closeFaults s.
Proof.
  destruct c; try done; intros _; cbn [run_call]; unfold after;
    try (by explorex);
    try (destruct tenantId; by explorex).
  unfold advance. by destruct (foldl_fire_pool
    (filter (λ timer : Z * string, timer.1 ≤ t) (timers s))
    (set_now t (set_timers (filter (λ timer : Z * string, ¬ timer.1 ≤ t) (timers s)) s)))
    as (-> & -> & -> & -> & ->).
Qed.

(** Closing one tenant's client, in [disconnectTenant] and at the start of
    [dropTenantDatabase], when the close is not rejected. *)
Lemma closing_calls (tenantId : string) (s : State) (s' : State) :
  closeFaults s = [] →
  s' = after (disconnectTenant tenantId) s ∨ s' = after (dropTenantDatabase tenantId) s →
  prismaClients s' = JsMap.delete tenantId (prismaClients s) ∧
  connected s' =
    match JsMap.get tenantId (prismaClients s) with
    | Some c => connected s ∖ {[ref c]}
    | None => connected s
    end ∧
  nextRef s' = nextRef s ∧ maxConnections s' = maxConnections s ∧
  closeFaults s' = [].
Proof.
  pose proof (delete_absent (V:=PrismaClient) tenantId) as Hdel.
  intros Hcf [-> | ->]; unfold after; run; rewrite ?Hcf;
    explore; cbn [snd]; run; rewrite ?Hdel by done; done.
Qed.

Lemma createTenantDatabase_pool (tenantId : string) (s : State) :
  let s' := after (createTenantDatabase tenantId) s in
  prismaClients s' = prismaClients s ∧
  (connected s' = connected s ∨ connected s' = connected s ∖ {[nextRef s]}) ∧
  (nextRef s ≤ nextRef s')%nat ∧ maxConnections s' = maxConnections s ∧
  (closeFaults s = [] → closeFaults s' = []).
Proof.
  unfold after. explore; cbn [snd]; run;
    (split; [done|]); (split; [by (left + right)|]); (split; [lia | done]).
Qed.

Lemma checkTenantHealth_pool (tenantId : string) (s : State) :
  let s1 := after (getPrismaClient tenantId) s in
  let s' := after (checkTenantHealth tenantId) s in
  prismaClients s' = prismaClients s1 ∧ connected s1 ⊆ connected s' ∧
  nextRef s' = nextRef s1 ∧ maxConnections s' = maxConnections s1 ∧
  closeFaults s' = closeFaults s1.
Proof.
  unfold after, checkTenantHealth, try_catch. rewrite bind_run.
  destruct (getPrismaClient tenantId s) as [[c|e] s1]; [|done].
  unfold queryRaw_select1. run.
  destruct (faults s1) as [|[] fs]; run; repeat split; try done.
  all: apply union_subseteq_r.
Qed.

Lemma run_call_consistent (c : call) (s : State) :
  closeFaults s = [] → pool_consistent s →
  pool_consistent (run_call s c) ∧ maxConnections (run_call s c) = maxConnections s ∧
  closeFaults (run_call s c) = [].
Proof.
  intros Hcf Hs. unfold pool_consistent in *.
  destruct c;
    try (match goal with
         | |- context [run_call s ?c] =>
             destruct (quiet_calls c s I) as (Hp & Hc & Hn & Hm & Hq)
         end; by rewrite Hp, Hc, Hn, Hm, Hq).
  - by apply getPrismaClient_consistent.
  - cbn [run_call].
    destruct (checkTenantHealth_pool tenantId s) as (-> & Hsub & -> & -> & ->).
    destruct (getPrismaClient_consistent tenantId s Hcf Hs) as (Hs1 & Hmax & Hcf1).
    split; [|done]. by eapply consistent_mono.
  - cbn [run_call].
    destruct (createTenantDatabase_pool tenantId s) as (-> & Hconn & Hnext & -> & Hcf1).
    split; [|split; [done | by apply Hcf1]]. destruct Hconn as [-> | ->].
    + by eapply consistent_mono.
    + eapply consistent_mono; [|done|done]. by apply consistent_disconnect_new.
  - cbn [run_call].
    destruct (closing_calls tenantId s _ Hcf (or_intror eq_refl)) as (-> & -> & -> & -> & ->).
    split; [|done].
    destruct (JsMap.get tenantId (prismaClients s)) as [c|] eqn:Hget.
    + by apply consistent_delete.
    + by rewrite delete_absent.
  - cbn [run_call].
    destruct (closing_calls tenantId s _ Hcf (or_introl eq_refl)) as (-> & -> & -> & -> & ->).
    split; [|done].
    destruct (JsMap.get tenantId (prismaClients s)) as [c|] eqn:Hget.
    + by apply consistent_delete.
    + by rewrite delete_absent.
  - cbn [run_call]. destruct (disconnectAll_pool s Hcf) as (-> & -> & _ & -> & _).
    split; [apply consistent_nil | done].
Qed.

Lemma run_calls_consistent (cs : list call) (s : State) :
  closeFaults s = [] → pool_consistent s →
  pool_consistent (run_calls s cs) ∧ maxConnections (run_calls s cs) = maxConnections s ∧
  closeFaults (run_calls s cs) = [].
Proof.
  revert s. induction cs as [|c cs IH]; intros s Hcf Hs; [done|].
  unfold run_calls in *. simpl.
  destruct (run_call_consistent c s Hcf Hs) as (Hs1 & Hmax & Hcf1).
  destruct (IH _ Hcf1 Hs1) as (Hs2 & Hmax2 & Hcf2). split_all; [done | congruence | done].
Qed.

Lemma delete_within (k : string) (m : list (string * PrismaClient)) :
  JsMap.size (JsMap.delete k m) ≤ JsMap.size m ∧
  (Forall (λ k, k ≠ EmptyString) (JsMap.keys m) →
   Forall (λ k, k ≠ EmptyString) (JsMap.keys (JsMap.delete k m))).
Proof.
  unfold JsMap.size, JsMap.keys. induction m as [|[k0 v0] m [IHs IHk]]; simpl; [done|].
  destruct (k0 =? k)%string; simpl.
  - split; [lia|]. by intros [_ ?]%Forall_cons.
  - split; [lia|]. intros [? ?]%Forall_cons. constructor; [done | by apply IHk].
Qed.

Lemma get_Some_elem (k : string) (c : PrismaClient) (m : list (string * PrismaClient)) :
  JsMap.get k m = Some c → (k, c) ∈ m.
Proof.
  intros (m1 & m2 & -> & _)%get_Some_split.
  apply elem_of_app. right. apply list_elem_of_here.
Qed.

Lemma NoDup_fmap_eq {A B} (f : A → B) (l : list A) (x y : A) :
  NoDup (f <$> l) → x ∈ l → y ∈ l → f x = f y → x = y.
Proof.
  induction l as [|a l IH]; simpl; [by intros _ ?%elem_of_nil|].
  intros [Ha Hnd]%NoDup_cons [->|Hx]%elem_of_cons [->|Hy]%elem_of_cons Heq.
  - done.
  - destruct Ha. rewrite Heq. by apply list_elem_of_fmap_2.
  - destruct Ha. rewrite <- Heq. by apply list_elem_of_fmap_2.
  - by apply IH.
Qed.

Lemma run_call_within_limit (c : call) (s : State) :
  1 ≤ maxConnections s → pools_nonempty_id c → closeFaults s = [] → within_limit s →
  within_limit (run_call s c) ∧ maxConnections (run_call s c) = maxConnections s ∧
  closeFaults (run_call s c) = [].
Proof.
  intros Hmax Hid Hcf [Hsize Hkeys]. unfold within_limit.
  destruct c;
    try (match goal with
         | |- context [run_call s ?c] =>
             destruct (quiet_calls c s I) as (Hp & Hc & Hn & Hm & Hq)
         end; by rewrite Hp, Hm, Hq).
  - by apply getPrismaClient_within_limit.
  - cbn [run_call].
    destruct (checkTenantHealth_pool tenantId s) as (-> & _ & _ & -> & ->).
    by apply getPrismaClient_within_limit.
  - cbn [run_call].
    destruct (createTenantDatabase_pool tenantId s) as (-> & _ & _ & -> & Hcf1).
    split_all; [done | done | done | by apply Hcf1].
  - cbn [run_call].
    destruct (closing_calls tenantId s _ Hcf (or_intror eq_refl)) as (-> & _ & _ & -> & ->).
    destruct (delete_within tenantId (prismaClients s)) as [Hs Hk].
    split; [|done]. split; [lia | by apply Hk].
  - cbn [run_call].
    destruct (closing_calls tenantId s _ Hcf (or_introl eq_refl)) as (-> & _ & _ & -> & ->).
    destruct (delete_within tenantId (prismaClients s)) as [Hs Hk].
    split; [|done]. split; [lia | by apply Hk].
  - cbn [run_call]. destruct (disconnectAll_pool s Hcf) as (-> & -> & _ & -> & _).
    split; [|done]. split; [unfold JsMap.size; simpl; lia | constructor].
Qed.

Lemma run_calls_within_limit (cs : list call) (s : State) :
  1 ≤ maxConnections s → Forall pools_nonempty_id cs → closeFaults s = [] →
  within_limit s →
  within_limit (run_calls s cs) ∧ maxConnections (run_calls s cs) = maxConnections s.
Proof.
  revert s. induction cs as [|c cs IH]; intros s Hmax Hids Hcf Hs; [done|].
  apply Forall_cons in Hids as [Hid Hids]. unfold run_calls in *. simpl.
  destruct (run_call_within_limit c s Hmax Hid Hcf Hs) as (Hs1 & Hmax1 & Hcf1).
  destruct (IH (run_call s c)) as [Hs2 Hmax2]; [lia | done | done | done |].
  split; [done | congruence].
Qed.

Lemma constructor_consistent (config : SeparateDatabaseConfig)
    (rows : gmap string TenantRecord) (dbs : gset string) (fs cfs : list bool) :
  pool_consistent (constructor config rows dbs fs cfs).
Proof. apply consistent_nil. Qed.

(** ** Every state the class can reach *)

(** X12. As long as no [$disconnect] is rejected: whatever calls are
    made, one after the other, in whatever order, with whatever tenant table
    and whatever failures of queries and dials, the keys of the pool are
    distinct, every pooled client holds an open connection, and no client is
    pooled for two tenants. *)
Theorem pool_stays_consistent (config : SeparateDatabaseConfig)
    (rows : gmap string TenantRecord) (dbs : gset string) (fs : list bool)
    (cs : list call) :
  let s := run_calls (constructor config rows dbs fs []) cs in
  NoDup (JsMap.keys (prismaClients s)) ∧
  (∀ t c, JsMap.get t (prismaClients s) = Some c → ¬ closed c s) ∧
  (∀ t1 t2 c, JsMap.get t1 (prismaClients s) = Some c →
              JsMap.get t2 (prismaClients s) = Some c → t1 = t2).
Proof.
  intros s.
  destruct (run_calls_consistent cs (constructor config rows dbs fs []) eq_refl
              (constructor_consistent config rows dbs fs []))
    as [Hs _]. fold s in Hs. split_all.
  - by destruct Hs.
  - intros t c Hget Hclosed. apply Hclosed. by eapply consistent_get.
  - intros t1 t2 c H1%get_Some_elem H2%get_Some_elem.
    destruct Hs as (_ & Hrefs & _). unfold JsMap.values in Hrefs.
    rewrite <- list_fmap_compose in Hrefs.
    by pose proof (NoDup_fmap_eq _ _ _ _ Hrefs H1 H2 eq_refl) as [= ->].
Qed.

(** X13. With a maximum in force of at least one, no empty tenant id
    handed to [getPrismaClient] or [checkTenantHealth], and as long as no
    [$disconnect] is rejected: whatever calls are made, one after the other,
    the pool never holds more clients than the maximum when a call has come
    back. *)
Theorem pool_stays_within_limit (config : SeparateDatabaseConfig)
    (rows : gmap string TenantRecord) (dbs : gset string) (fs : list bool)
    (cs : list call) :
  1 ≤ number_or (cfg_maxConnections config) 10 →
  Forall pools_nonempty_id cs →
  let s := run_calls (constructor config rows dbs fs []) cs in
  JsMap.size (prismaClients s) ≤ number_or (cfg_maxConnections config) 10 ∧
  maxConnections s = number_or (cfg_maxConnections config) 10.
Proof.
  intros Hmax Hids s.
  destruct (run_calls_within_limit cs (constructor config rows dbs fs []))
    as [[Hsize _] Hm]; [done | done | done | | ].
  - split; [unfold JsMap.size; simpl; lia | constructor].
  - fold s in Hsize, Hm. rewrite Hm in Hsize. done.
Qed.

Lemma pool_stays_within_limit_witness :
  let cs := [CallGetPrismaClient "a"; CallCheckTenantHealth "b";
             CallGetPrismaClient "d"; CallCreateTenantDatabase "c";
             CallGetPrismaClient "c"; TimersUntil 500; CallDropTenantDatabase "b";
             CallGetPrismaClient "x"; CallGetPrismaClient "a"] in
  let s := run_calls (constructor example_config example_rows ∅ [] []) cs in
  JsMap.size (prismaClients s) ≤ number_or (cfg_maxConnections example_config) 10 ∧
  maxConnections s = number_or (cfg_maxConnections example_config) 10.
Proof.
  intros cs.
  apply (pool_stays_within_limit example_config example_rows ∅ [] cs).
  - vm_compute. discriminate.
  - repeat constructor; discriminate.
Defined.

Lemma getPrismaClient_returns_pooled (tenantId : string) (s : State) c s' :
  pool_consistent s → 1 ≤ maxConnections s →
  getPrismaClient tenantId s = (Returns c, s') →
  JsMap.get tenantId (prismaClients s') = Some c ∧ ¬ closed c s'.
Proof.
  intros Hs Hmax Hcall.
  destruct (JsMap.get tenantId (prismaClients s)) as [c0|] eqn:Hget.
  { rewrite (getPrismaClient_pooled _ _ _ Hget) in Hcall. injection Hcall as <- <-.
    split; [done|]. intros Hclosed. apply Hclosed. by eapply consistent_get. }
  destruct (getPrismaClient_fresh_run _ _ _ _ Hget Hcall) as (Href & _ & _ & _ & Hrun).
  unfold closed.
  destruct (prismaClients s) as [|[k c0] p] eqn:Hpool.
  - simpl in Hrun. rewrite bool_decide_eq_false_2 in Hrun
      by (unfold JsMap.size; simpl; lia).
    simpl in Hrun. destruct Hrun as [-> ->]. simpl. rewrite String.eqb_refl.
    split; [done|]. intros H. apply H. apply elem_of_union. left.
    by apply elem_of_singleton.
  - assert (Hnew : JsMap.get tenantId (p ++ [(tenantId, c)]) = Some c).
    { apply get_snoc_fresh. simpl in Hget. by destruct (k =? tenantId)%string. }
    assert (Hlt : (ref c0 < nextRef s)%nat).
    { destruct Hs as (_ & _ & Hc). rewrite Hpool in Hc.
      by apply Forall_cons in Hc as [[_ ?] _]. }
    simpl in Hrun. destruct (bool_decide _ && truthy k); destruct Hrun as [-> ->].
    + split; [done|]. intros H. apply H. apply elem_of_difference. split.
      * apply elem_of_union. left. by apply elem_of_singleton.
      * intros Heq%elem_of_singleton. lia.
    + split.
      * change ((k, c0) :: p ++ [(tenantId, c)]) with (((k, c0) :: p) ++ [(tenantId, c)]).
        by apply get_snoc_fresh.
      * intros H. apply H. apply elem_of_union. left. by apply elem_of_singleton.
Qed.

(** X14. In every state the class can reach by calls made one after the
    other, none of which had a [$disconnect] rejected, with a maximum in
    force of at least one, the client [getPrismaClient] returns is the one
    pooled for the tenant, and it holds an open connection. *)
Theorem returned_client_is_pooled_and_open (config : SeparateDatabaseConfig)
    (rows : gmap string TenantRecord) (dbs : gset string) (fs : list bool)
    (cs : list call) (tenantId : string) c s' :
  let s := run_calls (constructor config rows dbs fs []) cs in
  1 ≤ maxConnections s →
  getPrismaClient tenantId s = (Returns c, s') →
  JsMap.get tenantId (prismaClients s') = Some c ∧ ¬ closed c s'.
Proof.
  intros s Hmax Hcall.
  destruct (run_calls_consistent cs (constructor config rows dbs fs []) eq_refl
              (constructor_consistent config rows dbs fs []))
    as [Hs _].
  by apply (getPrismaClient_returns_pooled tenantId s).
Qed.

Lemma returned_client_is_pooled_and_open_witness :
  let cs := [CallGetPrismaClient "a"; CallGetPrismaClient "b"; CallDisconnectTenant "b"] in
  let s := run_calls (constructor example_config example_rows ∅ [] []) cs in
  let c := {| ref := 2; datasource := "postgresql://u:p@h:5432/tenant_c" |} in
  JsMap.get "c" (prismaClients (after (getPrismaClient "c") s)) = Some c ∧
  ¬ closed c (after (getPrismaClient "c") s).
Proof.
  intros cs s c.
  apply (returned_client_is_pooled_and_open example_config example_rows ∅ [] cs "c" c).
  - vm_compute. discriminate.
  - vm_compute. reflexivity.
Defined.

Lemma keys_get (t : string) (m : list (string * PrismaClient)) :
  t ∈ JsMap.keys m ↔ is_Some (JsMap.get t m).
Proof.
  destruct (JsMap.get t m) as [c|] eqn:Hget.
  - split; [by eexists|]. intros _. destruct (decide (t ∈ JsMap.keys m)) as [|Hn]; [done|].
    apply get_None_keys in Hn. congruence.
  - split; [|by intros [? ?]]. intros Hin. by apply get_None_keys in Hget.
Qed.

Lemma run_call_limit_below_one (c : call) (s : State) :
  maxConnections s < 1 → pools_nonempty_id c → closeFaults s = [] →
  prismaClients s = [] →
  prismaClients (run_call s c) = [] ∧ maxConnections (run_call s c) = maxConnections s ∧
  closeFaults (run_call s c) = [].
Proof.
  intros Hmax Hid Hcf Hpool.
  assert (Hget : ∀ t s1, t ≠ EmptyString →
            s1 = after (getPrismaClient t) s →
            prismaClients s1 = [] ∧ maxConnections s1 = maxConnections s ∧
            closeFaults s1 = []).
  { intros t s1 Ht ->. unfold after.
    destruct (getPrismaClient t s) as [[c0|e] s1] eqn:Hcall; simpl.
    - destruct (getPrismaClient_fresh_run t s c0 s1) as (_ & _ & Hm & Hcf1 & Hrun);
        [by rewrite Hpool | done |].
      rewrite Hpool in Hrun. simpl in Hrun.
      rewrite bool_decide_eq_true_2, truthy_nonempty in Hrun
        by (try done; unfold JsMap.size; simpl; lia).
      simpl in Hrun. destruct Hrun as [-> _].
      split_all; [done | done |]. by destruct Hcf1 as [-> | ->]; rewrite Hcf.
    - destruct (getPrismaClient_throws_quiet _ _ _ _ Hcf Hcall) as (-> & -> & _ & ->).
      done. }
  destruct c;
    try (match goal with
         | |- context [run_call s ?c] =>
             destruct (quiet_calls c s I) as (Hp & Hc & Hn & Hm & Hq)
         end; by rewrite Hp, Hm, Hq).
  - exact (Hget tenantId _ Hid eq_refl).
  - cbn [run_call].
    destruct (checkTenantHealth_pool tenantId s) as (-> & _ & _ & -> & ->).
    exact (Hget tenantId _ Hid eq_refl).
  - cbn [run_call].
    destruct (createTenantDatabase_pool tenantId s) as (-> & _ & _ & -> & Hcf1).
    split_all; [done | done | by apply Hcf1].
  - cbn [run_call].
    destruct (closing_calls tenantId s _ Hcf (or_intror eq_refl)) as (-> & _ & _ & -> & ->).
    by rewrite Hpool.
  - cbn [run_call].
    destruct (closing_calls tenantId s _ Hcf (or_introl eq_refl)) as (-> & _ & _ & -> & ->).
    by rewrite Hpool.
  - cbn [run_call]. by destruct (disconnectAll_pool s Hcf) as (-> & -> & _ & -> & _).
Qed.

Lemma run_calls_limit_below_one (cs : list call) (s : State) :
  maxConnections s < 1 → Forall pools_nonempty_id cs → closeFaults s = [] →
  prismaClients s = [] →
  prismaClients (run_calls s cs) = [] ∧ maxConnections (run_calls s cs) = maxConnections s ∧
  closeFaults (run_calls s cs) = [].
Proof.
  revert s. induction cs as [|c cs IH]; intros s Hmax Hids Hcf Hs; [done|].
  apply Forall_cons in Hids as [Hid Hids]. unfold run_calls in *. simpl.
  destruct (run_call_limit_below_one c s Hmax Hid Hcf Hs) as (Hs1 & Hmax1 & Hcf1).
  destruct (IH (run_call s c)) as (Hs2 & Hmax2 & Hcf2); [lia | done | done | done |].
  split_all; [done | congruence | done].
Qed.

(** ** The edges of the limit *)

(** X15. A maximum below one (a negative [maxConnections]; zero is
    replaced by 10) leaves the pool empty for good, as long as no
    [$disconnect] is rejected: each client that [getPrismaClient] dials is
    admitted, is then the oldest of a pool above the maximum, and is closed
    and taken out before it is returned. The caller gets a client that is
    closed and not pooled. *)
Theorem limit_below_one_pools_nothing (config : SeparateDatabaseConfig)
    (rows : gmap string TenantRecord) (dbs : gset string) (fs : list bool)
    (cs : list call) (tenantId : string) :
  number_or (cfg_maxConnections config) 10 < 1 →
  Forall pools_nonempty_id cs →
  tenantId ≠ EmptyString →
  let s := run_calls (constructor config rows dbs fs []) cs in
  prismaClients s = [] ∧
  ∀ c s', getPrismaClient tenantId s = (Returns c, s') →
          prismaClients s' = [] ∧ closed c s'.
Proof.
  intros Hmax Hids Ht s.
  destruct (run_calls_limit_below_one cs (constructor config rows dbs fs []))
    as (Hpool & Hm & _); [done | done | done | done |].
  fold s in Hpool, Hm. split; [done|]. intros c s' Hcall.
  destruct (getPrismaClient_fresh_run tenantId s c s') as (_ & _ & _ & _ & Hrun);
    [by rewrite Hpool | done |].
  rewrite Hpool in Hrun. simpl in Hrun.
  rewrite bool_decide_eq_true_2, truthy_nonempty in Hrun
    by (try done; rewrite Hm; unfold JsMap.size; simpl;
        change (maxConnections (constructor config rows dbs fs []))
          with (number_or (cfg_maxConnections config) 10); lia).
  simpl in Hrun. destruct Hrun as [-> Hconn]. split; [done|].
  unfold closed. rewrite Hconn. intros [_ Hn]%elem_of_difference.
  apply Hn. by apply elem_of_singleton.
Qed.

Lemma limit_below_one_pools_nothing_witness :
  let config := {| cfg_masterDatabaseUrl := "postgresql://u:p@h:5432/master";
                   cfg_databaseUrlTemplate := None;
                   cfg_maxConnections := Some (-1);
                   cfg_cacheTtl := Some 100 |} in
  let s := run_calls (constructor config example_rows ∅ [] [])
             [CallGetPrismaClient "a"; CallCheckTenantHealth "b"] in
  let c := {| ref := 2; datasource := "postgresql://u:p@h:5432/tenant_c" |} in
  prismaClients s = [] ∧
  prismaClients (after (getPrismaClient "c") s) = [] ∧
  closed c (after (getPrismaClient "c") s).
Proof.
  intros config s c.
  destruct (limit_below_one_pools_nothing config example_rows ∅ []
              [CallGetPrismaClient "a"; CallCheckTenantHealth "b"] "c")
    as [Hpool Hcall].
  - vm_compute. reflexivity.
  - repeat constructor; discriminate.
  - discriminate.
  - split; [exact Hpool|]. apply (Hcall c). vm_compute. reflexivity.
Defined.

(** X16. The oldest client is never evicted when its key is the empty
    string: [evictOldestClient] tests the key with [if (firstKey)]. While the
    client of a tenant with the empty id is the first of the pool, every
    fresh client is added and none is closed, whatever the maximum. *)
Theorem empty_key_first_blocks_eviction (tenantId : string) (s : State) c s' :
  JsMap.first_key (prismaClients s) = Some EmptyString →
  JsMap.get tenantId (prismaClients s) = None →
  getPrismaClient tenantId s = (Returns c, s') →
  prismaClients s' = prismaClients s ++ [(tenantId, c)] ∧
  connected s' = {[ref c]} ∪ connected s.
Proof.
  intros Hfirst Hget Hcall.
  destruct (getPrismaClient_fresh_run tenantId s c s') as (_ & _ & _ & _ & Hrun); [done..|].
  destruct (prismaClients s) as [|[k c0] p]; [done|].
  simpl in Hfirst. injection Hfirst as ->. simpl in Hrun.
  by rewrite andb_false_r in Hrun.
Qed.

Lemma empty_key_first_blocks_eviction_witness :
  let config := {| cfg_masterDatabaseUrl := "postgresql://u:p@h:5432/master";
                   cfg_databaseUrlTemplate := None;
                   cfg_maxConnections := Some 1;
                   cfg_cacheTtl := Some 100 |} in
  let rows := <[EmptyString := row EmptyString true]> example_rows in
  let s := run_calls (constructor config rows ∅ [] []) [CallGetPrismaClient EmptyString] in
  let c := {| ref := 1; datasource := "postgresql://u:p@h:5432/tenant_a" |} in
  let s' := after (getPrismaClient "a") s in
  (prismaClients s' = prismaClients s ++ [("a", c)] ∧
   connected s' = {[ref c]} ∪ connected s) ∧
  JsMap.size (prismaClients s') > maxConnections s'.
Proof.
  intros config rows s c s'. split.
  - apply (empty_key_first_blocks_eviction "a" s c s').
    + vm_compute. reflexivity.
    + vm_compute. reflexivity.
    + vm_compute. reflexivity.
  - vm_compute. reflexivity.
Defined.

(** ** The tenants the class calls active *)

(** X17. In every state the class can reach by calls made one after the
    other, none of which had a [$disconnect] rejected, [getActiveTenants]
    changes nothing and lists, without repetition, exactly the tenants that
    have a pooled client; each of these clients holds an open connection.
    Whether a tenant is active in the tenant table plays no part. *)
Theorem getActiveTenants_lists_the_pool (config : SeparateDatabaseConfig)
    (rows : gmap string TenantRecord) (dbs : gset string) (fs : list bool)
    (cs : list call) :
  let s := run_calls (constructor config rows dbs fs []) cs in
  ∃ l, getActiveTenants s = (Returns l, s) ∧ NoDup l ∧
       ∀ t, t ∈ l ↔ ∃ c, JsMap.get t (prismaClients s) = Some c ∧ ¬ closed c s.
Proof.
  intros s.
  destruct (run_calls_consistent cs (constructor config rows dbs fs []) eq_refl
              (constructor_consistent config rows dbs fs []))
    as [Hs _]. fold s in Hs.
  exists (JsMap.keys (prismaClients s)). split_all.
  - reflexivity.
  - by destruct Hs.
  - intros t. rewrite keys_get. split.
    + intros [c Hc]. exists c. split; [done|]. intros Hclosed. apply Hclosed.
      by eapply consistent_get.
    + intros (c & Hc & _). by exists c.
Qed.


(** ** Provisioning, end to end *)

Lemma createTenantDatabase_healthy (tenantId : string) (s : State) (r : TenantRecord) :
  faults s = [] → closeFaults s = [] → tenants s !! tenantId = Some r →
  "tenant_" +:+ tenantId ∉ databases s →
  let url := replace "{tenantId}" tenantId (databaseUrlTemplate s) in
  let s' := after (createTenantDatabase tenantId) s in
  result (createTenantDatabase tenantId) s = Returns true ∧
  faults s' = [] ∧ closeFaults s' = [] ∧
  databaseUrlTemplate s' = databaseUrlTemplate s ∧
  databases s' = {[ "tenant_" +:+ tenantId ]} ∪ databases s ∧
  tenants s' =
    <[tenantId := {| tenant_id := tenant_id r; tenant_name := tenant_name r;
                     tenant_isActive := tenant_isActive r;
                     tenant_config := Some {[ "databaseUrl" := url ]} |}]> (tenants s).
Proof.
  intros Hf Hcf Hr Hdb. unfold after, result. run. rewrite Hf. run.
  destruct (decide _) as [|_]; [done|]. run. rewrite Hcf. run. rewrite Hf. run.
  rewrite Hr. run. done.
Qed.

Lemma dropTenantDatabase_healthy (tenantId : string) (s : State) :
  faults s = [] → closeFaults s = [] →
  let s' := after (dropTenantDatabase tenantId) s in
  result (dropTenantDatabase tenantId) s = Returns true ∧
  faults s' = [] ∧ closeFaults s' = [] ∧
  databaseUrlTemplate s' = databaseUrlTemplate s ∧
  databases s' = databases s ∖ {[ "tenant_" +:+ tenantId ]} ∧
  tenants s' = tenants s.
Proof.
  intros Hf Hcf. unfold after, result. run.
  destruct (JsMap.get tenantId (prismaClients s)); run; rewrite ?Hcf; run;
    repeat (rewrite Hf; run); simpl; done.
Qed.

Lemma dropTenantDatabase_tenants (tenantId : string) (s : State) :
  tenants (after (dropTenantDatabase tenantId) s) = tenants s.
Proof. unfold after. explore; done. Qed.

(** X18. On a healthy backend (no query, dial or disconnect fails), for
    a tenant that has a row and no database yet: [createTenantDatabase] succeeds; a second call right after
    it fails, the database being there; [dropTenantDatabase] succeeds and
    takes the database away again; and the tenant can then be provisioned
    anew, which leaves the tenant table and the databases as the first
    provisioning left them. *)
Theorem create_drop_create (tenantId : string) (s : State) :
  faults s = [] → closeFaults s = [] → is_Some (tenants s !! tenantId) →
  "tenant_" +:+ tenantId ∉ databases s →
  let s1 := after (createTenantDatabase tenantId) s in
  let s2 := after (dropTenantDatabase tenantId) s1 in
  let s3 := after (createTenantDatabase tenantId) s2 in
  result (createTenantDatabase tenantId) s = Returns true ∧
  result (createTenantDatabase tenantId) s1 = Returns false ∧
  tenants (after (createTenantDatabase tenantId) s1) = tenants s1 ∧
  result (dropTenantDatabase tenantId) s1 = Returns true ∧
  databases s2 = databases s ∧
  result (createTenantDatabase tenantId) s2 = Returns true ∧
  tenants s3 = tenants s1 ∧ databases s3 = databases s1.
Proof.
  intros Hf Hcf [r Hr] Hdb s1 s2 s3.
  destruct (createTenantDatabase_healthy tenantId s r Hf Hcf Hr Hdb)
    as (Hres1 & Hf1 & Hcf1 & Ht1 & Hd1 & Hrows1). fold s1 in Hf1, Hcf1, Ht1, Hd1, Hrows1.
  destruct (dropTenantDatabase_healthy tenantId s1 Hf1 Hcf1)
    as (Hres2 & Hf2 & Hcf2 & Ht2 & Hd2 & Hrows2).
  fold s2 in Hf2, Hcf2, Ht2, Hd2, Hrows2.
  assert (Hd2' : databases s2 = databases s).
  { rewrite Hd2, Hd1. apply set_eq. intros x.
    rewrite elem_of_difference, elem_of_union, !elem_of_singleton.
    split; [by intros [[?|?] ?] | intros Hx; split; [by right | by intros ->]]. }
  assert (Hr2 : tenants s2 !! tenantId =
            Some {| tenant_id := tenant_id r; tenant_name := tenant_name r;
                    tenant_isActive := tenant_isActive r;
                    tenant_config := Some {[ "databaseUrl" :=
                      replace "{tenantId}" tenantId (databaseUrlTemplate s) ]} |}).
  { rewrite Hrows2, Hrows1. apply lookup_insert_eq. }
  destruct (createTenantDatabase_healthy tenantId s2 _ Hf2 Hcf2 Hr2)
    as (Hres3 & _ & _ & _ & Hd3 & Hrows3); [by rewrite Hd2'|].
  fold s3 in Hd3, Hrows3.
  split_all; try done.
  - unfold result. run. rewrite Hf1. run.
    destruct (decide _) as [|Hn]; [done|]. destruct Hn. rewrite Hd1.
    apply elem_of_union. left. by apply elem_of_singleton.
  - unfold after. run. rewrite Hf1. run.
    destruct (decide _) as [|Hn]; [done|]. destruct Hn. rewrite Hd1.
    apply elem_of_union. left. by apply elem_of_singleton.
  - rewrite Hrows3, Hrows2, Ht2, Ht1. simpl. rewrite Hrows1.
    by rewrite insert_insert_eq.
  - by rewrite Hd3, Hd2', Hd1.
Qed.

Lemma create_drop_create_witness :
  let s := example_state in
  let s1 := after (createTenantDatabase "e") s in
  let s2 := after (dropTenantDatabase "e") s1 in
  let s3 := after (createTenantDatabase "e") s2 in
  result (createTenantDatabase "e") s = Returns true ∧
  result (createTenantDatabase "e") s1 = Returns false ∧
  tenants (after (createTenantDatabase "e") s1) = tenants s1 ∧
  result (dropTenantDatabase "e") s1 = Returns true ∧
  databases s2 = databases s ∧
  result (createTenantDatabase "e") s2 = Returns true ∧
  tenants s3 = tenants s1 ∧ databases s3 = databases s1.
Proof.
  apply (create_drop_create "e" example_state).
  - reflexivity.
  - reflexivity.
  - vm_compute. by eexists.
  - vm_compute. intros H. discriminate H.
Defined.

(** X19. [dropTenantDatabase] never writes to the tenant table, whether
    it succeeds or fails part of the way. So a tenant whose database was
    dropped on a healthy backend (no query and no disconnect fails) is
    still there and still active:
    [validateTenant] answers [true] for it as before. *)
Theorem dropped_tenant_stays_valid (tenantId : string) (s : State) :
  let s' := after (dropTenantDatabase tenantId) s in
  tenants s' = tenants s ∧
  (faults s = [] → closeFaults s = [] →
   ∀ r, tenants s !! tenantId = Some r → tenant_isActive r = true →
        result (dropTenantDatabase tenantId) s = Returns true ∧
        (("tenant_" +:+ tenantId) ∉ databases s') ∧
        result (validateTenant tenantId) s' = Returns (Some true)).
Proof.
  intros s'. split; [apply dropTenantDatabase_tenants|].
  intros Hf Hcf r Hr Hact.
  destruct (dropTenantDatabase_healthy tenantId s Hf Hcf)
    as (Hres & Hf' & _ & _ & Hd & Hrows). fold s' in Hf', Hd, Hrows.
  split_all; [done | |].
  - rewrite Hd. intros [_ Hn]%elem_of_difference. apply Hn. by apply elem_of_singleton.
  - unfold result. run. rewrite Hf'. run. rewrite Hrows, Hr. run. by rewrite Hact.
Qed.

Lemma dropped_tenant_stays_valid_witness :
  let s := after (createTenantDatabase "a") example_state in
  let s' := after (dropTenantDatabase "a") s in
  result (dropTenantDatabase "a") s = Returns true ∧
  ("tenant_a" ∉ databases s') ∧
  result (validateTenant "a") s' = Returns (Some true).
Proof.
  intros s s'.
  refine (proj2 (dropped_tenant_stays_valid "a" s) _ _
            {| tenant_id := "a"; tenant_name := "a"; tenant_isActive := true;
               tenant_config := Some {[ "databaseUrl" := "postgresql://u:p@h:5432/tenant_a" ]} |}
            _ _).
  - reflexivity.
  - reflexivity.
  - vm_compute. reflexivity.
  - reflexivity.
Defined.


(** ** Connections and the pool *)

Lemma elem_get (t : string) (c : PrismaClient) (m : list (string * PrismaClient)) :
  NoDup (JsMap.keys m) → (t, c) ∈ m → JsMap.get t m = Some c.
Proof.
  unfold JsMap.keys. induction m as [|[k0 c0] m IH]; simpl.
  - by intros _ ?%elem_of_nil.
  - intros [Hk0 Hnd]%NoDup_cons [[= -> ->]|Hin]%elem_of_cons.
    + by rewrite String.eqb_refl.
    + destruct (String.eqb_spec k0 t) as [->|_]; [|by apply IH].
      destruct Hk0. apply list_elem_of_fmap. by exists (t, c).
Qed.

Lemma refs_delete (t : string) (r : nat) (m : list (string * PrismaClient)) :
  r ∈ ref <$> JsMap.values m →
  (∀ c, JsMap.get t m = Some c → r ≠ ref c) →
  r ∈ ref <$> JsMap.values (JsMap.delete t m).
Proof.
  intros Hr Hne. destruct (JsMap.get t m) as [c|] eqn:Hget.
  - destruct (get_Some_split _ _ _ Hget) as (m1 & m2 & -> & ->).
    unfold JsMap.values in *. rewrite !fmap_app, !fmap_cons in Hr.
    rewrite !fmap_app. apply elem_of_app in Hr as [Hr|Hr]; apply elem_of_app.
    + by left.
    + apply elem_of_cons in Hr as [Hr|Hr]; [|by right].
      by destruct (Hne c eq_refl).
  - by rewrite delete_absent.
Qed.

Lemma getPrismaClient_tracked (tenantId : string) (s : State) :
  tracked s → tracked (after (getPrismaClient tenantId) s).
Proof.
  intros Hs. unfold after.
  destruct (getPrismaClient tenantId s) as [[c|e] s1] eqn:Hcall; simpl.
  - destruct (JsMap.get tenantId (prismaClients s)) as [c0|] eqn:Hget.
    { rewrite (getPrismaClient_pooled _ _ _ Hget) in Hcall. by injection Hcall as <- <-. }
    destruct (getPrismaClient_fresh_run _ _ _ _ Hget Hcall) as (_ & _ & _ & _ & Hrun).
    assert (Hall : ∀ r, r ∈ {[ref c]} ∪ connected s →
              r ∈ ref <$> JsMap.values (prismaClients s ++ [(tenantId, c)])).
    { intros r [Hr%elem_of_singleton|Hr]%elem_of_union;
        unfold JsMap.values; rewrite !fmap_app; apply elem_of_app.
      - right. rewrite Hr. apply list_elem_of_here.
      - left. by apply Hs. }
    destruct (prismaClients s ++ [(tenantId, c)]) as [|[k c0] p]; [done|].
    destruct (bool_decide _ && truthy k); destruct Hrun as [Hp Hc];
      intros r; rewrite Hp, Hc.
    + intros [Hr Hne]%elem_of_difference. apply Hall in Hr.
      unfold JsMap.values in Hr. rewrite !fmap_cons in Hr.
      apply elem_of_cons in Hr as [Hr|Hr]; [|done].
      destruct Hne. by apply elem_of_singleton.
    + apply Hall.
  - destruct (getPrismaClient_throws _ _ _ _ Hcall)
      as (_ & [(Hp & Hc & _) | (c & Hp & _ & _ & Hc & _)]).
    + intros r. rewrite Hp, Hc. apply Hs.
    + intros r. rewrite Hp, Hc. unfold JsMap.values. rewrite !fmap_app.
      intros [Hr%elem_of_singleton|Hr]%elem_of_union; apply elem_of_app.
      * right. rewrite Hr. apply list_elem_of_here.
      * left. by apply Hs.
Qed.

Lemma checkTenantHealth_connected (tenantId : string) (s : State) :
  let s' := after (checkTenantHealth tenantId) s in
  match getPrismaClient tenantId s with
  | (Returns c, s1) =>
      (result (checkTenantHealth tenantId) s = Returns true ∧
       connected s' = {[ref c]} ∪ connected s1) ∨
      (result (checkTenantHealth tenantId) s = Returns false ∧
       connected s' = connected s1)
  | (Throws _, s1) =>
      result (checkTenantHealth tenantId) s = Returns false ∧ connected s' = connected s1
  end.
Proof.
  unfold after, result, checkTenantHealth, try_catch. rewrite bind_run.
  destruct (getPrismaClient tenantId s) as [[c|e] s1]; [|done].
  unfold queryRaw_select1. run.
  destruct (faults s1) as [|[] fs]; run; simpl; first [by left | by right].
Qed.

Lemma run_call_tracked (c : call) (s : State) :
  closeFaults s = [] → pool_consistent s → 1 ≤ maxConnections s →
  tracked s → tracked (run_call s c).
Proof.
  intros Hcf Hcons Hmax Hs.
  destruct c;
    try (match goal with
         | |- context [run_call s ?c] =>
             destruct (quiet_calls c s I) as (Hp & Hc & Hn & Hm & Hq)
         end; intros r; rewrite Hp, Hc; apply Hs).
  - by apply getPrismaClient_tracked.
  - cbn [run_call]. intros r.
    destruct (checkTenantHealth_pool tenantId s) as (Hp & _).
    pose proof (checkTenantHealth_connected tenantId s) as Hc.
    pose proof (getPrismaClient_tracked tenantId s Hs) as Ht.
    cbn zeta in Hp, Hc. rewrite Hp. unfold after in Ht, Hp |- * at 2.
    destruct (getPrismaClient tenantId s) as [[c|e] s1] eqn:Hcall; simpl in *.
    + destruct (getPrismaClient_returns_pooled _ _ _ _ Hcons Hmax Hcall) as [Hget _].
      destruct Hc as [[_ ->]|[_ ->]]; [|apply Ht].
      intros [->%elem_of_singleton|Hr]%elem_of_union; [|by apply Ht].
      apply get_Some_elem in Hget. unfold JsMap.values.
      rewrite <- list_fmap_compose. apply list_elem_of_fmap. by exists (tenantId, c).
    + destruct Hc as [_ ->]. apply Ht.
  - cbn [run_call]. intros r.
    destruct (createTenantDatabase_pool tenantId s) as (-> & [->| ->] & _); [apply Hs|].
    intros [Hr _]%elem_of_difference. by apply Hs.
  - cbn [run_call]. intros r.
    destruct (closing_calls tenantId s _ Hcf (or_intror eq_refl)) as (-> & -> & _).
    destruct (JsMap.get tenantId (prismaClients s)) as [c|] eqn:Hget.
    + intros [Hr Hne]%elem_of_difference. apply refs_delete; [by apply Hs|].
      rewrite Hget. intros c' [= <-] ->. apply Hne. by apply elem_of_singleton.
    + intros Hr. rewrite delete_absent by done. by apply Hs.
  - cbn [run_call]. intros r.
    destruct (closing_calls tenantId s _ Hcf (or_introl eq_refl)) as (-> & -> & _).
    destruct (JsMap.get tenantId (prismaClients s)) as [c|] eqn:Hget.
    + intros [Hr Hne]%elem_of_difference. apply refs_delete; [by apply Hs|].
      rewrite Hget. intros c' [= <-] ->. apply Hne. by apply elem_of_singleton.
    + intros Hr. rewrite delete_absent by done. by apply Hs.
  - cbn [run_call]. intros r.
    destruct (disconnectAll_pool s Hcf) as (_ & _ & _ & _ & Hconn).
    intros [Hr Hn]%Hconn. destruct Hn. by apply Hs.
Qed.

Lemma run_calls_tracked (cs : list call) (s : State) :
  closeFaults s = [] → pool_consistent s → 1 ≤ maxConnections s →
  tracked s → tracked (run_calls s cs) ∧ closeFaults (run_calls s cs) = [].
Proof.
  revert s. induction cs as [|c cs IH]; intros s Hcf Hcons Hmax Hs; [done|].
  unfold run_calls in *. simpl.
  destruct (run_call_consistent c s Hcf Hcons) as (Hcons1 & Hmax1 & Hcf1).
  apply IH; [done | done | lia | by apply run_call_tracked].
Qed.

(** X20. With a maximum in force of at least one, and as long as no
    [$disconnect] is rejected, the class loses no connection: in every state
    it can reach by calls made one after the other, every open connection
    of a tenant client is that of a client in the pool, so that
    [disconnectTenant], an eviction or [disconnectAll] can still close it;
    and after [disconnectAll] none is open. *)
Theorem no_connection_is_lost (config : SeparateDatabaseConfig)
    (rows : gmap string TenantRecord) (dbs : gset string) (fs : list bool)
    (cs : list call) :
  1 ≤ number_or (cfg_maxConnections config) 10 →
  let s := run_calls (constructor config rows dbs fs []) cs in
  (∀ r, r ∈ connected s →
        ∃ t c, JsMap.get t (prismaClients s) = Some c ∧ ref c = r) ∧
  connected (after disconnectAll s) = ∅.
Proof.
  intros Hmax s.
  destruct (run_calls_consistent cs (constructor config rows dbs fs []) eq_refl
              (constructor_consistent config rows dbs fs []))
    as [Hcons _]. fold s in Hcons.
  assert (Hs : tracked s ∧ closeFaults s = []).
  { apply run_calls_tracked; [done | apply constructor_consistent | done |].
    by intros r ?%elem_of_empty. }
  destruct Hs as [Hs Hcf].
  split.
  - intros r Hr%Hs. unfold JsMap.values in Hr. rewrite <- list_fmap_compose in Hr.
    apply list_elem_of_fmap in Hr as ([t c] & -> & Hin).
    exists t, c. split; [|done]. apply elem_get; [by destruct Hcons | done].
  - apply set_eq. intros r. split; [|by intros ?%elem_of_empty].
    destruct (disconnectAll_pool s Hcf) as (_ & _ & _ & _ & Hconn).
    intros [Hr Hn]%Hconn. destruct Hn. by apply Hs.
Qed.

Lemma no_connection_is_lost_witness :
  let cs := [CallGetPrismaClient "a"; CallCheckTenantHealth "b";
             CallCreateTenantDatabase "c"; CallGetPrismaClient "c";
             CallDropTenantDatabase "b"; CallCheckTenantHealth "d"] in
  let s := run_calls (constructor example_config example_rows ∅ [] []) cs in
  (∀ r, r ∈ connected s →
        ∃ t c, JsMap.get t (prismaClients s) = Some c ∧ ref c = r) ∧
  connected (after disconnectAll s) = ∅.
Proof.
  intros cs.
  apply (no_connection_is_lost example_config example_rows ∅ [] cs).
  vm_compute. discriminate.
Defined.

(** X21. With a maximum below one, and no [$disconnect] rejected, a
    health check that succeeds leaves a connection open that nothing will
    close: the client it got from [getPrismaClient] was already evicted and
    closed, the query reconnects it, and the pool, being empty, does not
    hold it. *)
Theorem health_check_below_one_loses_a_connection (config : SeparateDatabaseConfig)
    (rows : gmap string TenantRecord) (dbs : gset string) (fs : list bool)
    (cs : list call) (tenantId : string) :
  number_or (cfg_maxConnections config) 10 < 1 →
  Forall pools_nonempty_id cs →
  tenantId ≠ EmptyString →
  let s := run_calls (constructor config rows dbs fs []) cs in
  let s' := after (checkTenantHealth tenantId) s in
  result (checkTenantHealth tenantId) s = Returns true →
  nextRef s ∈ connected s' ∧ prismaClients s' = [] ∧
  nextRef s ∈ connected (after disconnectAll s').
Proof.
  intros Hmax Hids Ht s s' Hres.
  destruct (run_calls_limit_below_one cs (constructor config rows dbs fs []))
    as (Hpool & Hm & Hcf); [done | done | done | done |].
  fold s in Hpool, Hm, Hcf.
  destruct (run_call_limit_below_one (CallCheckTenantHealth tenantId) s)
    as (Hpool' & _ & Hcf'); [by rewrite Hm | done | done | done |].
  cbn [run_call] in Hpool', Hcf'. fold s' in Hpool', Hcf'.
  pose proof (checkTenantHealth_connected tenantId s) as Hc. cbn zeta in Hc.
  fold s' in Hc.
  destruct (getPrismaClient tenantId s) as [[c|e] s1] eqn:Hcall.
  - destruct (getPrismaClient_fresh_run tenantId s c s1) as (Href & _);
      [by rewrite Hpool | done |].
    destruct Hc as [[_ Hc]|[Hc _]]; [|congruence].
    assert (Hin : nextRef s ∈ connected s').
    { rewrite Hc, <- Href. apply elem_of_union. left. by apply elem_of_singleton. }
    split_all; [done | done |].
    destruct (disconnectAll_pool s' Hcf') as (_ & _ & _ & _ & Hconn).
    apply Hconn. split; [done|]. rewrite Hpool'. apply not_elem_of_nil.
  - destruct Hc as [Hc _]. congruence.
Qed.

Lemma health_check_below_one_loses_a_connection_witness :
  let config := {| cfg_masterDatabaseUrl := "postgresql://u:p@h:5432/master";
                   cfg_databaseUrlTemplate := None;
                   cfg_maxConnections := Some (-1);
                   cfg_cacheTtl := Some 100 |} in
  let s := run_calls (constructor config example_rows ∅ [] []) [CallGetPrismaClient "a"] in
  let s' := after (checkTenantHealth "b") s in
  nextRef s ∈ connected s' ∧ prismaClients s' = [] ∧
  nextRef s ∈ connected (after disconnectAll s').
Proof.
  intros config s s'.
  apply (health_check_below_one_loses_a_connection config example_rows ∅ []
           [CallGetPrismaClient "a"] "b").
  - vm_compute. reflexivity.
  - repeat constructor; discriminate.
  - discriminate.
  - vm_compute. reflexivity.
Defined.


(** * [ConfigManager] *)

(** ** Providers *)

Section Sort.
Context {A : Type} (key : A → Z).

Let compare (a b : A) : Z := key a - key b.

Lemma sort_insert_perm (a : A) (l : list A) :
  ConfigManager.sort_insert compare a l ≡ₚ a :: l.
Proof.
  induction l as [|b l IH]; simpl; [done|].
  destruct (compare a b <=? 0); [done|]. rewrite IH. apply Permutation_swap.
Qed.

Lemma sort_insert_sorted (a : A) (l : list A) :
  StronglySorted (λ x y, key x ≤ key y) l →
  StronglySorted (λ x y, key x ≤ key y) (ConfigManager.sort_insert compare a l).
Proof.
  induction l as [|b l IH]; simpl; intros Hl.
  - by repeat constructor.
  - apply StronglySorted_inv in Hl as [Hl Hb].
    destruct (Z.leb_spec (compare a b) 0) as [Hle|Hgt].
    + unfold compare in Hle. constructor; [by constructor|]. constructor; [lia|].
      eapply Forall_impl; [exact Hb|]. simpl. intros; lia.
    + unfold compare in Hgt. constructor; [by apply IH|].
      rewrite (sort_insert_perm a l). constructor; [lia | done].
Qed.

Lemma sort_insert_filter (a : A) (l : list A) (q : Z) :
  filter (λ x, key x = q) (ConfigManager.sort_insert compare a l) =
  filter (λ x, key x = q) (a :: l).
Proof.
  induction l as [|b l IH]; simpl; [done|].
  destruct (Z.leb_spec (compare a b) 0) as [Hle|Hgt]; [done|]. unfold compare in Hgt.
  rewrite (filter_cons _ b), IH, !filter_cons.
  destruct (decide (key a = q)), (decide (key b = q)); try done. lia.
Qed.

Lemma sort_spec (l : list A) :
  StronglySorted (λ x y, key x ≤ key y) (ConfigManager.sort compare l) ∧
  ConfigManager.sort compare l ≡ₚ l ∧
  ∀ q, filter (λ x, key x = q) (ConfigManager.sort compare l) = filter (λ x, key x = q) l.
Proof.
  unfold ConfigManager.sort. induction l as [|a l (IHs & IHp & IHf)]; simpl.
  - split_all; [constructor | done | done].
  - split_all.
    + by apply sort_insert_sorted.
    + by rewrite sort_insert_perm, IHp.
    + intros q. by rewrite sort_insert_filter, !filter_cons, IHf.
Qed.

End Sort.

(** X22. However many providers are added, in whatever order: the list
    is in ascending order of priority, it holds exactly the providers that
    were added, and providers of the same priority stand in the order in
    which they were added. *)
Theorem providers_sorted_and_stable (added : list ConfigManager.ConfigProvider) :
  let providers := foldl (λ ps p, ConfigManager.addProvider p ps) [] added in
  StronglySorted (λ a b, ConfigManager.priority a ≤ ConfigManager.priority b) providers ∧
  providers ≡ₚ added ∧
  ∀ q, filter (λ p, ConfigManager.priority p = q) providers =
       filter (λ p, ConfigManager.priority p = q) added.
Proof.
  induction added as [|p added IH] using rev_ind.
  - split_all; [constructor | done | done].
  - rewrite foldl_app. simpl. destruct IH as (_ & IHp & IHf).
    unfold ConfigManager.addProvider at 1 2 3.
    destruct (sort_spec ConfigManager.priority
                (foldl (λ ps p, ConfigManager.addProvider p ps) [] added ++ [p]))
      as (Hs & Hp & Hf).
    split_all; [done | by rewrite Hp, IHp |].
    intros q. by rewrite Hf, !filter_app, IHf.
Qed.

(** ** Watchers *)

Lemma indexOf_absent (callback : nat) (watchers : list nat) :
  callback ∉ watchers → ConfigManager.indexOf callback watchers = -1.
Proof.
  induction watchers as [|w watchers IH]; simpl; [done|].
  intros [Hne Hn]%not_elem_of_cons.
  destruct (Nat.eqb_spec w callback); [congruence|]. by rewrite IH.
Qed.

Lemma indexOf_first (callback : nat) (pre post : list nat) :
  callback ∉ pre →
  ConfigManager.indexOf callback (pre ++ callback :: post) = Z.of_nat (length pre).
Proof.
  induction pre as [|w pre IH]; simpl.
  - by rewrite Nat.eqb_refl.
  - intros [Hne Hn]%not_elem_of_cons.
    destruct (Nat.eqb_spec w callback); [congruence|]. rewrite IH by done.
    destruct (Z.eqb_spec (Z.of_nat (length pre)) (-1)); lia.
Qed.

Lemma unsubscribe_absent (callback : nat) (watchers : list nat) :
  callback ∉ watchers → ConfigManager.unsubscribe callback watchers = watchers.
Proof.
  intros H. unfold ConfigManager.unsubscribe. by rewrite indexOf_absent.
Qed.

Lemma unsubscribe_first (callback : nat) (pre post : list nat) :
  callback ∉ pre →
  ConfigManager.unsubscribe callback (pre ++ callback :: post) = pre ++ post.
Proof.
  intros H. unfold ConfigManager.unsubscribe, ConfigManager.splice1.
  rewrite indexOf_first by done.
  destruct (Z.gtb_spec (Z.of_nat (length pre)) (-1)); [|lia].
  rewrite Nat2Z.id, take_app_length.
  change (S (length pre)) with (1 + length pre)%nat.
  rewrite Nat.add_comm, <- drop_drop, drop_app_length. done.
Qed.

(** X23. The function [watch] returns removes one registration of its
    callback, the oldest one, and leaves the other watchers in their order.
    For a callback that was not registered before, subscribing and
    unsubscribing gives the list back; for one that was, it is the earlier
    registration that goes, and the callback moves to the end of the list.
    Called when the callback is no longer registered, the function does
    nothing. *)
Theorem unsubscribe_removes_the_oldest_registration (callback : nat)
    (watchers : list nat) :
  (callback ∉ watchers →
   ConfigManager.unsubscribe callback watchers = watchers ∧
   ConfigManager.unsubscribe callback (ConfigManager.watch callback watchers) = watchers) ∧
  (∀ pre post, watchers = pre ++ callback :: post → callback ∉ pre →
     ConfigManager.unsubscribe callback watchers = pre ++ post ∧
     ConfigManager.unsubscribe callback (ConfigManager.watch callback watchers) =
       pre ++ post ++ [callback]).
Proof.
  split.
  - intros H. split; [by apply unsubscribe_absent|].
    unfold ConfigManager.watch.
    rewrite (unsubscribe_first callback watchers []) by done. apply app_nil_r.
  - intros pre post -> H. split; [by apply unsubscribe_first|].
    unfold ConfigManager.watch. rewrite <- app_assoc. simpl.
    by rewrite unsubscribe_first.
Qed.

Lemma unsubscribe_removes_the_oldest_registration_witness :
  (ConfigManager.unsubscribe 7 [1; 7; 2]%nat = [1; 2]%nat ∧
   ConfigManager.unsubscribe 7 (ConfigManager.watch 7 [1; 7; 2]%nat) = [1; 2; 7]%nat) ∧
  (ConfigManager.unsubscribe 7 [1; 2]%nat = [1; 2]%nat ∧
   ConfigManager.unsubscribe 7 (ConfigManager.watch 7 [1; 2]%nat) = [1; 2]%nat).
Proof.
  split.
  - apply (proj2 (unsubscribe_removes_the_oldest_registration 7 [1; 7; 2]%nat)
             [1]%nat [2]%nat).
    + reflexivity.
    + intros H. apply list_elem_of_singleton in H. discriminate H.
  - apply (proj1 (unsubscribe_removes_the_oldest_registration 7 [1; 2]%nat)).
    intros H. apply elem_of_cons in H as [H|H]; [discriminate H|].
    apply list_elem_of_singleton in H. discriminate H.
Defined.

(** ** Feature flags *)

(** X24. [enableFeature] and [disableFeature] set the flag they name and
    no other, so that [isFeatureEnabled] answers [true] after the one and
    [false] after the other. The name [__proto__] is the exception: unless
    the flags hold a property of that name of their own, the two calls change
    nothing, and the feature stays disabled. *)
Theorem feature_flag_toggle (feature other : string) (flags : gmap string bool) :
  (feature ≠ ConfigManager.proto ∨ is_Some (flags !! feature) →
   ConfigManager.isFeatureEnabled feature (ConfigManager.enableFeature feature flags) = true ∧
   ConfigManager.isFeatureEnabled feature (ConfigManager.disableFeature feature flags) = false) ∧
  (other ≠ feature →
   ConfigManager.isFeatureEnabled other (ConfigManager.enableFeature feature flags) =
     ConfigManager.isFeatureEnabled other flags ∧
   ConfigManager.isFeatureEnabled other (ConfigManager.disableFeature feature flags) =
     ConfigManager.isFeatureEnabled other flags) ∧
  (flags !! ConfigManager.proto = None →
   ConfigManager.enableFeature ConfigManager.proto flags = flags ∧
   ConfigManager.disableFeature ConfigManager.proto flags = flags ∧
   ConfigManager.isFeatureEnabled ConfigManager.proto
     (ConfigManager.enableFeature ConfigManager.proto flags) = false).
Proof.
  unfold ConfigManager.isFeatureEnabled, ConfigManager.enableFeature,
    ConfigManager.disableFeature, ConfigManager.assign.
  split_all.
  - intros Hown.
    assert (bool_decide (feature = ConfigManager.proto) &&
            bool_decide (flags !! feature = None) = false) as ->.
    { destruct Hown as [Hne|[b Hb]].
      - by rewrite (bool_decide_eq_false_2 _ Hne).
      - rewrite Hb, andb_false_r. done. }
    rewrite !lookup_insert_eq. done.
  - intros Hne.
    destruct (bool_decide (feature = ConfigManager.proto) &&
              bool_decide (flags !! feature = None)); [done|].
    by rewrite !lookup_insert_ne.
  - intros Hnone. rewrite Hnone. simpl. rewrite Hnone. done.
Qed.

Lemma feature_flag_toggle_witness :
  (ConfigManager.isFeatureEnabled "beta" (ConfigManager.enableFeature "beta" ∅) = true ∧
   ConfigManager.isFeatureEnabled "beta" (ConfigManager.disableFeature "beta" ∅) = false) ∧
  (ConfigManager.enableFeature ConfigManager.proto ∅ = ∅ ∧
   ConfigManager.disableFeature ConfigManager.proto ∅ = ∅ ∧
   ConfigManager.isFeatureEnabled ConfigManager.proto
     (ConfigManager.enableFeature ConfigManager.proto ∅) = false).
Proof.
  split.
  - apply (proj1 (feature_flag_toggle "beta" "beta" ∅)). left. discriminate.
  - apply (proj2 (proj2 (feature_flag_toggle "beta" "beta" ∅))). reflexivity.
Defined.

(** X25. [setFeatureFlags] merges: a flag it is given takes the given
    value, and every other flag keeps the value it had; the flags that were
    there are not dropped. *)
Theorem setFeatureFlags_merges (feature : string) (flags featureFlags : gmap string bool) :
  ConfigManager.isFeatureEnabled feature
    (ConfigManager.setFeatureFlags flags featureFlags) =
  match flags !! feature with
  | Some b => b
  | None => ConfigManager.isFeatureEnabled feature featureFlags
  end ∧
  dom (ConfigManager.getFeatureFlags (ConfigManager.setFeatureFlags flags featureFlags)) =
  dom flags ∪ dom featureFlags.
Proof.
  unfold ConfigManager.isFeatureEnabled, ConfigManager.setFeatureFlags,
    ConfigManager.getFeatureFlags.
  split; [|apply dom_union_L].
  destruct (flags !! feature) as [b|] eqn:Hf.
  - rewrite (lookup_union_Some_l _ _ _ _ Hf). by destruct b.
  - by rewrite (lookup_union_r _ _ _ Hf).
Qed.

(** ** Validation *)

Lemma validate_messages (config : ConfigManager.AppConfig) :
  let r := ConfigManager.validate config in
  bool_decide ("Database URL is required" ∈ ConfigManager.errors r) =
    negb (truthy (ConfigManager.database_url config)) ∧
  bool_decide ("JWT secret must be configured" ∈ ConfigManager.errors r) =
    (negb (truthy (ConfigManager.auth_jwt_secret config))
     || String.eqb (ConfigManager.auth_jwt_secret config)
          "default-secret-change-in-production") ∧
  bool_decide ("Encryption key must be configured" ∈ ConfigManager.errors r) =
    (negb (truthy (ConfigManager.security_encryption_key config))
     || String.eqb (ConfigManager.security_encryption_key config)
          "default-encryption-key-change-in-production") ∧
  bool_decide ("Port must be between 1 and 65535" ∈ ConfigManager.errors r) =
    (ConfigManager.lt (ConfigManager.port config) 1
     || ConfigManager.gt (ConfigManager.port config) 65535) ∧
  bool_decide ("Environment must be one of: development, staging, production"
                 ∈ ConfigManager.errors r) =
    negb (ConfigManager.includes (ConfigManager.environment config)
            ConfigManager.validEnvs) ∧
  ConfigManager.valid r = bool_decide (ConfigManager.errors r = []) ∧
  ConfigManager.errors r `sublist_of`
    ["Database URL is required"; "JWT secret must be configured";
     "Encryption key must be configured"; "Port must be between 1 and 65535";
     "Environment must be one of: development, staging, production"].
Proof.
  unfold ConfigManager.validate. cbn [ConfigManager.errors ConfigManager.valid].
  destruct (negb (truthy (ConfigManager.database_url config)));
  destruct (negb (truthy (ConfigManager.auth_jwt_secret config))
            || String.eqb (ConfigManager.auth_jwt_secret config) _);
  destruct (negb (truthy (ConfigManager.security_encryption_key config))
            || String.eqb (ConfigManager.security_encryption_key config) _);
  destruct (ConfigManager.lt (ConfigManager.port config) 1
            || ConfigManager.gt (ConfigManager.port config) 65535);
  destruct (negb (ConfigManager.includes (ConfigManager.environment config)
                    ConfigManager.validEnvs));
  (split_all; [vm_compute; reflexivity .. | vm_compute; repeat constructor]).
Qed.

(** X26. [validate] reports every problem it finds, not only the first:
    the errors come in one fixed order, each of the five messages is there
    exactly when its check fails, and the configuration is valid exactly
    when there is none. A port that is [NaN] passes the range check. *)
Theorem validate_reports_every_problem (config : ConfigManager.AppConfig) :
  let r := ConfigManager.validate config in
  let secret := ConfigManager.auth_jwt_secret config in
  let key := ConfigManager.security_encryption_key config in
  let env := ConfigManager.environment config in
  (ConfigManager.valid r = true ↔ ConfigManager.errors r = []) ∧
  ConfigManager.errors r `sublist_of`
    ["Database URL is required"; "JWT secret must be configured";
     "Encryption key must be configured"; "Port must be between 1 and 65535";
     "Environment must be one of: development, staging, production"] ∧
  ("Database URL is required" ∈ ConfigManager.errors r ↔
   ConfigManager.database_url config = EmptyString) ∧
  ("JWT secret must be configured" ∈ ConfigManager.errors r ↔
   secret = EmptyString ∨ secret = "default-secret-change-in-production") ∧
  ("Encryption key must be configured" ∈ ConfigManager.errors r ↔
   key = EmptyString ∨ key = "default-encryption-key-change-in-production") ∧
  ("Port must be between 1 and 65535" ∈ ConfigManager.errors r ↔
   ∃ n, ConfigManager.port config = ConfigManager.Num n ∧ (n < 1 ∨ 65535 < n)) ∧
  ("Environment must be one of: development, staging, production"
     ∈ ConfigManager.errors r ↔
   env ≠ "development" ∧ env ≠ "staging" ∧ env ≠ "production").
Proof.
  intros r secret key env.
  destruct (validate_messages config) as (H1 & H2 & H3 & H4 & H5 & Hv & Hsub).
  fold r in H1, H2, H3, H4, H5, Hv, Hsub.
  assert (Hempty : ∀ x, negb (truthy x) = true ↔ x = EmptyString).
  { intros x. unfold truthy. rewrite negb_involutive. apply String.eqb_eq. }
  split_all; [| done | | | | |].
  - rewrite Hv. apply bool_decide_eq_true.
  - rewrite <- Hempty, <- H1. symmetry. apply bool_decide_eq_true.
  - rewrite <- (Hempty secret), <- (String.eqb_eq secret), <- orb_true_iff.
    fold secret in H2. rewrite <- H2. symmetry. apply bool_decide_eq_true.
  - rewrite <- (Hempty key), <- (String.eqb_eq key), <- orb_true_iff.
    fold key in H3. rewrite <- H3. symmetry. apply bool_decide_eq_true.
  - etrans; [symmetry; apply bool_decide_eq_true|]. rewrite H4, orb_true_iff.
    destruct (ConfigManager.port config) as [|n]; simpl.
    + split; [by intros [?|?] | by intros (n & ? & _)].
    + rewrite Z.ltb_lt, Z.gtb_gt. split.
      * intros H. exists n. split; [done | lia].
      * intros (n' & [= <-] & H). lia.
  - etrans; [symmetry; apply bool_decide_eq_true|]. rewrite H5. fold env.
    unfold ConfigManager.includes, ConfigManager.validEnvs. simpl.
    rewrite orb_false_r, negb_true_iff, !orb_false_iff, !String.eqb_neq. done.
Qed.
